(** * A shallow embedding of [cosmpy/clients/ledger.py]

    The ledger client performs blocking calls to a node (account, broadcast,
    receipt and balance queries), to a faucet and to the clock ([time.sleep]).
    It is modelled in a state and exception monad over a [world] that holds a
    logical clock (the index of the next external call), the chronological
    list of the external effects performed so far (newest first) and the
    mutable [account_number] field of every [CosmosCrypto] object.  Every
    external call is answered by an oracle indexed by the clock, so the
    environment may answer each call differently. *)

From Stdlib Require Import String Ascii List ZArith QArith Bool Lia.
Import ListNotations.
Open Scope string_scope.
Open Scope nat_scope.
Open Scope list_scope.
#[local] Set Warnings "-register-all".

(** ** Python exceptions: class name, [str(e)] and [__cause__]. *)

Inductive exn : Type :=
| Exn (cls : string) (msg : string) (cause : option exn).

Definition exn_cls (e : exn) : string := let 'Exn c _ _ := e in c.
Definition exn_msg (e : exn) : string := let 'Exn _ m _ := e in m.
Definition exn_cause (e : exn) : option exn := let 'Exn _ _ c := e in c.

(** [f"{x}"] for an [Optional[Exception]]. *)
Definition str_opt_exn (e : option exn) : string :=
  match e with None => "None" | Some e => exn_msg e end.

(** ** Effects and the world *)

Inductive service : Type :=
| SAccount (address : string)
| SBroadcastTx
| SGetTx (txhash : string)
| SAllBalances (address : string)
| SFaucetClaim (address : string).

Inductive event : Type :=
| EvCall (s : service)
| EvSleep (seconds : Q)
| EvInfoBalance (address : string) (balance : Z).

Record world : Type := mkWorld {
  clock : nat;
  log : list event;
  acct_num : nat -> option Z
}.

Inductive result (A : Type) : Type :=
| Ok (a : A)
| Err (e : exn).
Arguments Ok {A} a.
Arguments Err {A} e.

Definition M (A : Type) : Type := world -> result A * world.

Definition ret {A} (a : A) : M A := fun w => (Ok a, w).
Definition raise {A} (e : exn) : M A := fun w => (Err e, w).
Definition bind {A B} (m : M A) (f : A -> M B) : M B :=
  fun w => match m w with
           | (Ok a, w') => f a w'
           | (Err e, w') => (Err e, w')
           end.

Notation "x <- m ;; k" := (bind m (fun x => k))
  (at level 61, m at next level, right associativity).
Notation "m ;;; k" := (bind m (fun _ => k))
  (at level 61, right associativity).

(** [try: m except <handled>: h] *)
Definition try_except {A} (m : M A) (handles : exn -> bool) (h : exn -> M A) : M A :=
  fun w => match m w with
           | (Err e, w') => if handles e then h e w' else (Err e, w')
           | r => r
           end.

Definition any_exception (_ : exn) : bool := true.
Definition is_cls (c : string) (e : exn) : bool := String.eqb (exn_cls e) c.

Definition emit (ev : event) : M unit :=
  fun w => (Ok tt, mkWorld (clock w) (ev :: log w) (acct_num w)).

(** [time.sleep(seconds)] *)
Definition sleep (seconds : Q) : M unit := emit (EvSleep seconds).

(** The answer of the environment to one external call. *)
Inductive outcome (V : Type) : Type :=
| Raised (e : exn)
| Returned (r : option V).
Arguments Raised {V} e.
Arguments Returned {V} r.

(** One external call: logged, answered by the oracle at the current clock. *)
Definition invoke {V} (s : service) (o : nat -> outcome V) : M (option V) :=
  fun w =>
    let w' := mkWorld (S (clock w)) (EvCall s :: log w) (acct_num w) in
    match o (clock w) with
    | Raised e => (Err e, w')
    | Returned r => (Ok r, w')
    end.

(** ** [Retrier] *)

Record Retrier : Type := mkRetrier {
  n_retries : Z;
  retry_interval : Q;
  log_retries : bool;
  call_name : string;
  exception_type : string
}.

(** The [while attempt < self.n_retries] loop; [k] is the number of
    iterations left, [attempt] counts the iterations done. *)
Fixpoint retry_loop {V} (r : Retrier) (call : M (option V)) (k : nat)
    (last_exception : option exn) (response : option V) : M (option exn * option V) :=
  match k with
  | O => ret (last_exception, response)
  | S k' =>
      fun w =>
        match call w with
        | (Ok (Some v), w1) => (Ok (last_exception, Some v), w1)  (* break *)
        | (Ok None, w1) => retry_loop r call k' last_exception None w1
        | (Err e, w1) =>
            (sleep (retry_interval r) ;;;
             retry_loop r call k' (Some e) response) w1
        end
  end.

Definition call_with_retry {V} (r : Retrier) (call : M (option V)) : M V :=
  p <- retry_loop r call (Z.to_nat (n_retries r)) None None ;;
  match p with
  | (last_exception, None) =>
      raise (Exn (exception_type r)
                 (call_name r ++ " failed after multiple attempts: "
                    ++ str_opt_exn last_exception)%string
                 last_exception)
  | (_, Some v) => ret v
  end.

(** ** Observations on a run *)

Definition is_sleep (ev : event) : bool :=
  match ev with EvSleep _ => true | _ => false end.

Definition count_sleeps (l : list event) : nat := length (filter is_sleep l).

(** The effects of one failed [Retrier] attempt, newest first. *)
Definition failed_attempt (r : Retrier) (s : service) : list event :=
  [EvSleep (retry_interval r); EvCall s].

Definition after_failures (r : Retrier) (s : service) (m : nat) (w : world) : world :=
  mkWorld (clock w + m) (concat (repeat (failed_attempt r s) m) ++ log w) (acct_num w).

Definition last_failure (m : nat) (le : option exn) (errs : nat -> exn) : option exn :=
  match m with O => le | S m' => Some (errs m') end.

(** ** JSON values as [json.loads] returns them (dicts as their [items()]). *)

Inductive json : Type :=
| JNull
| JBool (b : bool)
| JInt (z : Z)
| JStr (s : string)
| JList (l : list json)
| JDict (items : list (string * json)).

(** ** Protobuf messages used by the client *)

(** [Coin.amount] is a decimal string on the wire; it is kept as the integer
    that [int()] reads from it. *)
Record Coin : Type := mkCoin { denom : string; amount : Z }.

Record BaseAccount : Type := mkBaseAccount {
  ba_address : string;
  ba_account_number : Z;
  ba_sequence : Z
}.

(** The [google.protobuf.Any] in a [QueryAccountResponse]: [Is] and [Unpack]
    succeed exactly on a packed [BaseAccount]. *)
Inductive AccountAny : Type :=
| AnyBaseAccount (a : BaseAccount)
| AnyOtherAccount (type_url : string).

Record QueryAccountResponse : Type := mkQueryAccountResponse { account : AccountAny }.

Inductive Msg : Type :=
| MsgSend (from_address to_address : string) (amount : list Coin)
| MsgStoreCode (sender : string) (wasm_byte_code : string)
| MsgInstantiateContract (sender : string) (code_id : Z) (msg : json) (label : string)
    (funds : list Coin)
| MsgExecuteContract (sender contract : string) (msg : json) (funds : list Coin).

(** [ProtoAny.Pack] of a [PubKey] or of a message. *)
Inductive ProtoAny : Type :=
| PackedPubKey (key : string)
| PackedMsg (m : Msg).

Inductive SignMode : Type :=
| SIGN_MODE_UNSPECIFIED
| SIGN_MODE_DIRECT
| SIGN_MODE_TEXTUAL
| SIGN_MODE_LEGACY_AMINO_JSON.

(** [ModeInfo(single=ModeInfo.Single(mode=...))] *)
Record ModeInfo : Type := mkModeInfo { single_mode : SignMode }.

Record SignerInfo : Type := mkSignerInfo {
  public_key : ProtoAny;
  mode_info : ModeInfo;
  sequence : Z
}.

Record Fee : Type := mkFee { fee_amount : list Coin; gas_limit : Z }.

Record AuthInfo : Type := mkAuthInfo { signer_infos : list SignerInfo; fee : Fee }.

Record TxBody : Type := mkTxBody { messages : list ProtoAny; memo : string }.

(** Modelled from the spec: [cosmpy.tx.sign_transaction] is not part of the
    sources.  The spec describes it as
    [Signer.sign(unsignedTxBytes, privateKey, chainId, accountNumber) ->
    signatureBytes]; the signature is kept symbolically as the data it signs. *)
Record Signature : Type := mkSignature {
  sig_body : TxBody;
  sig_auth_info : AuthInfo;
  sig_private_key : string;
  sig_chain_id : string;
  sig_account_number : Z
}.

Record Tx : Type := mkTx {
  body : TxBody;
  auth_info : AuthInfo;
  signatures : list Signature
}.

(** Modelled from the spec: see [Signature]. *)
Definition sign_transaction (tx : Tx) (private_key chain_id : string) (account_number : Z) : Tx :=
  mkTx (body tx) (auth_info tx)
    (signatures tx ++ [mkSignature (body tx) (auth_info tx) private_key chain_id account_number]).

Record TxResponse : Type := mkTxResponse { code : Z; raw_log : string; txhash : string }.

Record BroadcastTxResponse : Type := mkBroadcastTxResponse { b_tx_response : TxResponse }.

Record GetTxResponse : Type := mkGetTxResponse { tx_response : TxResponse }.

(** [CosmosCrypto]: its [account_number] attribute is mutable and lives in
    the world, at the object's identity [cr_id]. *)
Record CosmosCrypto : Type := mkCrypto {
  cr_id : nat;
  cr_address : string;
  cr_pubkey : string;
  cr_private_key : string
}.

(** ** The [CosmosLedger] object and the node it talks to *)

Record CosmosLedger : Type := mkLedger {
  chain_id : string;
  faucet_url : option string;
  msg_retry_interval : Q;
  msg_failed_retry_interval : Q;
  faucet_retry_interval : Q;
  n_sending_retries : Z;
  n_total_msg_retries : Z;
  get_response_retry_interval : Q;
  n_get_response_retries : Z
}.

(** The constructor's defaults. *)
Definition default_ledger (chain : string) (faucet : option string) : CosmosLedger :=
  mkLedger chain faucet 2 10 20 1 1 (1 # 2) 30.

(** The answers of the node and of the faucet, per call (indexed by the
    clock), and the contents of the files [open] reads. *)
Record Node : Type := mkNode {
  auth_Account : nat -> string -> outcome QueryAccountResponse;
  tx_BroadcastTx : nat -> Tx -> outcome BroadcastTxResponse;
  tx_GetTx : nat -> string -> outcome GetTxResponse;
  bank_AllBalances : nat -> string -> outcome (list Coin);
  faucet_claims : nat -> string -> outcome Z;
  read_file : string -> option string
}.

Definition CLIENT_CODE_MESSAGE_SUCCESSFUL : Z := 0.
Definition DEFAULT_GAS_LIMIT : Z := 3000000.

Definition get_acct_num (id : nat) : M (option Z) := fun w => (Ok (acct_num w id), w).

Definition set_acct_num (id : nat) (n : Z) : M unit :=
  fun w => (Ok tt, mkWorld (clock w) (log w)
                     (fun j => if Nat.eqb j id then Some n else acct_num w j)).

Fixpoint mapM {A B} (f : A -> M B) (l : list A) : M (list B) :=
  match l with
  | [] => ret []
  | x :: xs => y <- f x ;; ys <- mapM f xs ;; ret (y :: ys)
  end.

Section Ledger.
Variable self : CosmosLedger.
Variable node : Node.

(** [query_account_data]: the retry loop, then the [BaseAccount] check. *)
Fixpoint account_loop (address : string) (k : nat) (last_exception : option exn)
    : M (option exn * option QueryAccountResponse) :=
  match k with
  | O => ret (last_exception, None)
  | S k' =>
      fun w =>
        match invoke (SAccount address) (fun t => auth_Account node t address) w with
        | (Ok r, w1) => (Ok (last_exception, r), w1)  (* break *)
        | (Err e, w1) =>
            (sleep (msg_retry_interval self) ;;;
             account_loop address k' (Some e)) w1
        end
  end.

Definition query_account_data (address : string) : M BaseAccount :=
  p <- account_loop address (Z.to_nat (n_total_msg_retries self)) None ;;
  match p with
  | (last_exception, None) =>
      raise (Exn "BroadcastException"
               ("Getting account data failed after multiple attempts: "
                  ++ str_opt_exn last_exception) None)
  | (_, Some resp) =>
      match account resp with
      | AnyBaseAccount a => ret a
      | AnyOtherAccount _ => raise (Exn "TypeError" "Unexpected account type" None)
      end
  end.

Definition _get_signer_info (from_acc : BaseAccount) (pub_key : string) : SignerInfo :=
  mkSignerInfo (PackedPubKey pub_key) (mkModeInfo SIGN_MODE_DIRECT) (ba_sequence from_acc).

Definition generate_tx (packed_msgs : list ProtoAny) (from_addresses : list string)
    (pub_keys : list string) (fee_opt : option (list Coin)) (memo_ : string)
    (gas_limit_ : Z) : M Tx :=
  signer_infos_ <- mapM (fun '(from_address, pub_key) =>
                           acc <- query_account_data from_address ;;
                           ret (_get_signer_info acc pub_key))
                        (combine from_addresses pub_keys) ;;
  ret (mkTx (mkTxBody packed_msgs memo_)
            (mkAuthInfo signer_infos_
               (mkFee (match fee_opt with Some f => f | None => [] end) gas_limit_))
            []).

Definition _ensure_accont_number (crypto : CosmosCrypto) : M unit :=
  n <- get_acct_num (cr_id crypto) ;;
  match n with
  | None => acc <- query_account_data (cr_address crypto) ;;
            set_acct_num (cr_id crypto) (ba_account_number acc)
  | Some _ => ret tt
  end.

(** [sign_tx] signs [tx] in place; the signed transaction is returned. *)
Definition sign_tx (crypto : CosmosCrypto) (tx : Tx) : M Tx :=
  _ensure_accont_number crypto ;;;
  n <- get_acct_num (cr_id crypto) ;;
  match n with
  | None => raise (Exn "RuntimeError" "Getting account number failed" None)
  | Some account_number =>
      ret (sign_transaction tx (cr_private_key crypto) (chain_id self) account_number)
  end.

Definition get_tx (hash : string) : M GetTxResponse :=
  call_with_retry
    (mkRetrier (n_get_response_retries self) (get_response_retry_interval self)
       false "Getting tx response" "BroadcastException")
    (invoke (SGetTx hash) (fun t => tx_GetTx node t hash)).

Definition broadcast_retrier_of (retries : Z) : Retrier :=
  mkRetrier retries (msg_retry_interval self) true "Transaction broadcasting"
    "BroadcastException".

Definition broadcast_tx (tx : Tx) (retries : option Z) : M GetTxResponse :=
  let n := match retries with Some r => r | None => n_total_msg_retries self end in
  broad_tx_resp <- call_with_retry (broadcast_retrier_of n)
                     (invoke SBroadcastTx (fun t => tx_BroadcastTx node t tx)) ;;
  let resp := b_tx_response broad_tx_resp in
  if negb (Z.eqb (code resp) CLIENT_CODE_MESSAGE_SUCCESSFUL) then
    raise (Exn "BroadcastException"
             ("Transaction cannot be broadcast: " ++ raw_log resp) None)
  else get_tx (txhash resp).


End Ledger.

(** ** The subset of Python's [re] used by the client

    A compiled pattern is a list of pieces; [re.match] anchors it at the
    start of the string and succeeds when some prefix of the string matches.
    [.] matches any character but a newline; [$] (no [MULTILINE]) matches at
    the end of the string and right before a newline that ends it. *)

Inductive atom : Type :=
| ALit (c : ascii)
| AClass (ranges : list (ascii * ascii))
| ADot.

Inductive quant : Type := QOne | QStar | QPlus | QRep (n : nat).

Inductive piece : Type :=
| PBol
| PEol
| PAtom (a : atom) (q : quant).

Definition regex : Type := list piece.

Definition newline : ascii := Ascii.ascii_of_nat 10.

Definition in_range (c : ascii) (r : ascii * ascii) : bool :=
  let '(lo, hi) := r in
  (N.leb (Ascii.N_of_ascii lo) (Ascii.N_of_ascii c)
   && N.leb (Ascii.N_of_ascii c) (Ascii.N_of_ascii hi))%bool.

Definition atom_ok (a : atom) (c : ascii) : bool :=
  match a with
  | ALit c' => Ascii.eqb c c'
  | AClass rs => existsb (in_range c) rs
  | ADot => negb (Ascii.eqb c newline)
  end.

Definition at_eol (s : string) : bool :=
  match s with
  | EmptyString => true
  | String c EmptyString => Ascii.eqb c newline
  | _ => false
  end.

(** [matches_at ps st s]: the pieces [ps] match a prefix of [s]; [st] tells
    whether [s] starts at position 0 (for [^]). *)
Fixpoint matches_at (ps : regex) (st : bool) (s : string) {struct ps} : bool :=
  match ps with
  | [] => true
  | PBol :: ps' => st && matches_at ps' st s
  | PEol :: ps' => at_eol s && matches_at ps' st s
  | PAtom a q :: ps' =>
      let star := fix star (s : string) (st : bool) {struct s} : bool :=
        matches_at ps' st s
        || match s with
           | String c s' => atom_ok a c && star s' false
           | EmptyString => false
           end in
      match q with
      | QOne =>
          match s with
          | String c s' => atom_ok a c && matches_at ps' false s'
          | EmptyString => false
          end
      | QStar => star s st
      | QPlus =>
          match s with
          | String c s' => atom_ok a c && star s' false
          | EmptyString => false
          end
      | QRep n =>
          (fix rep (n : nat) (s : string) (st : bool) {struct n} : bool :=
             match n with
             | O => matches_at ps' st s
             | S n' =>
                 match s with
                 | String c s' => atom_ok a c && rep n' s' false
                 | EmptyString => false
                 end
             end) n s st
      end
  end%bool.

(** [re_pattern.match(s) is not None] *)
Definition re_match (re : regex) (s : string) : bool := matches_at re true s.

(** [re.compile] on the supported syntax: literals, [.], [^], [$], classes of
    characters and ranges, and the quantifiers [*], [+] and [{n}].  [None]
    stands for a pattern outside this subset. *)
Definition is_metachar (c : ascii) : bool :=
  existsb (Ascii.eqb c) (list_ascii_of_string ".^$*+?{}[]\|()").

Fixpoint parse_class (s : string) : option (list (ascii * ascii) * string) :=
  match s with
  | EmptyString => None
  | String c rest =>
      if Ascii.eqb c "]" then Some ([], rest)
      else if orb (Ascii.eqb c "\") (orb (Ascii.eqb c "[") (Ascii.eqb c "^")) then None
      else
        match rest with
        | String m (String d rest') =>
            if andb (Ascii.eqb m "-") (negb (Ascii.eqb d "]")) then
              match parse_class rest' with
              | Some (rs, r) => Some ((c, d) :: rs, r)
              | None => None
              end
            else
              match parse_class rest with
              | Some (rs, r) => Some ((c, c) :: rs, r)
              | None => None
              end
        | _ =>
            match parse_class rest with
            | Some (rs, r) => Some ((c, c) :: rs, r)
            | None => None
            end
        end
  end.

Definition digit_value (c : ascii) : option nat :=
  let n := Ascii.nat_of_ascii c in
  if andb (Nat.leb 48 n) (Nat.leb n 57) then Some (n - 48) else None.

Fixpoint parse_count (s : string) (acc : nat) (seen : bool) : option (nat * string) :=
  match s with
  | EmptyString => None
  | String c rest =>
      if Ascii.eqb c "}" then (if seen then Some (acc, rest) else None)
      else match digit_value c with
           | Some d => parse_count rest (10 * acc + d) true
           | None => None
           end
  end.

Definition parse_quant (s : string) : option (quant * string) :=
  match s with
  | String c rest =>
      if Ascii.eqb c "*" then
        match rest with String "?" _ => None | _ => Some (QStar, rest) end
      else if Ascii.eqb c "+" then
        match rest with String "?" _ => None | _ => Some (QPlus, rest) end
      else if Ascii.eqb c "?" then None
      else if Ascii.eqb c "{" then
        match parse_count rest 0 false with
        | Some (n, rest') => Some (QRep n, rest')
        | None => None
        end
      else Some (QOne, s)
  | EmptyString => Some (QOne, s)
  end.

Fixpoint parse_regex (fuel : nat) (s : string) : option regex :=
  match fuel with
  | O => None
  | S fuel' =>
      let with_quant (a : atom) (rest : string) : option regex :=
        match parse_quant rest with
        | Some (q, rest') =>
            match parse_regex fuel' rest' with
            | Some ps => Some (PAtom a q :: ps)
            | None => None
            end
        | None => None
        end in
      match s with
      | EmptyString => Some []
      | String c rest =>
          if Ascii.eqb c "^" then option_map (cons PBol) (parse_regex fuel' rest)
          else if Ascii.eqb c "$" then option_map (cons PEol) (parse_regex fuel' rest)
          else if Ascii.eqb c "." then with_quant ADot rest
          else if Ascii.eqb c "[" then
            match parse_class rest with
            | Some (rs, rest') => with_quant (AClass rs) rest'
            | None => None
            end
          else if is_metachar c then None
          else with_quant (ALit c) rest
      end
  end.

Definition re_compile (pattern : string) : option regex :=
  parse_regex (S (String.length pattern)) pattern.

Definition compiled (pattern : string) : regex :=
  match re_compile pattern with Some re => re | None => [] end.

Definition CONTRACT_ADDRESS_RE : regex := compiled ".*contract_address.*".
Definition CODE_ID_RE : regex := compiled ".*code_id.*".

(** [is_valid_crypto_address]; [None] when the prefix leaves the modelled
    subset of the pattern syntax. *)
Definition is_valid_crypto_address (address : string) (prefix : string) : option bool :=
  match re_compile ("^" ++ prefix ++ "[0-9a-z]{39}$") with
  | Some addr_re => Some (re_match addr_re address)
  | None => None
  end.

Definition default_prefix : string := "[a-z]+".

(** ** [_find_item] *)

Fixpoint _find_item (obj : json) (re_pattern : regex) {struct obj} : option json :=
  match obj with
  | JList l =>
      (fix go (l : list json) : option json :=
         match l with
         | [] => None
         | item :: l' =>
             match _find_item item re_pattern with
             | Some res => Some res
             | None => go l'
             end
         end) l
  | JDict items =>
      (fix go (items : list (string * json)) : option json :=
         match items with
         | [] => None
         | (_, v) :: items' =>
             if match v with JStr s => re_match re_pattern s | _ => false end
             then Some obj
             else match _find_item v re_pattern with
                  | Some res => Some res
                  | None => go items'
                  end
         end) items
  | _ => None
  end.

(** Following the spec's words, for comparison with [_find_item]: every dict
    holding a string value the pattern matches, listed in traversal order
    (list elements in order; dict entries in order, each value tested for a
    match before recursing into it), once per matching value; keys are never
    tested. *)
Definition str_value_matches (re : regex) (v : json) : bool :=
  match v with JStr s => re_match re s | _ => false end.

Fixpoint match_events (re : regex) (obj : json) {struct obj} : list json :=
  match obj with
  | JList l =>
      (fix go (l : list json) : list json :=
         match l with
         | [] => []
         | x :: l' => match_events re x ++ go l'
         end) l
  | JDict items =>
      (fix go (items : list (string * json)) : list json :=
         match items with
         | [] => []
         | (_, v) :: items' =>
             (if str_value_matches re v then [obj] else []) ++ match_events re v ++ go items'
         end) items
  | _ => []
  end.

(** The strings stored in a tree, as list elements or as dict values. *)
Fixpoint strings_of (obj : json) : list string :=
  match obj with
  | JStr s => [s]
  | JList l =>
      (fix go (l : list json) : list string :=
         match l with [] => [] | x :: l' => strings_of x ++ go l' end) l
  | JDict items =>
      (fix go (items : list (string * json)) : list string :=
         match items with [] => [] | (_, v) :: items' => strings_of v ++ go items' end) items
  | _ => []
  end.

(** The confirmation log of the spec's example. *)
Definition code_id_log : json :=
  JDict [("events", JList [JDict [("attributes",
    JList [JDict [("key", JStr "code_id"); ("value", JStr "42")]])]])].

(** ** Python's [str] and [int] on the values of a parsed log *)

Definition digit_char (n : N) : ascii := Ascii.ascii_of_N (48 + n).

Fixpoint decimal_digits (fuel : nat) (n : N) (acc : string) : string :=
  match fuel with
  | O => acc
  | S fuel' =>
      let acc' := String (digit_char (N.modulo n 10)) acc in
      if N.ltb n 10 then acc' else decimal_digits fuel' (N.div n 10) acc'
  end.

(** [str(z)] for an [int]. *)
Definition string_of_Z (z : Z) : string :=
  let digits := decimal_digits (S (N.to_nat (N.size (Z.abs_N z)))) (Z.abs_N z) EmptyString in
  if Z.ltb z 0 then String "-" digits else digits.

Definition hex_char (n : N) : ascii :=
  if N.ltb n 10 then Ascii.ascii_of_N (48 + n) else Ascii.ascii_of_N (87 + n).

(** The characters [repr] escapes as [\xNN] (code points below 256). *)
Definition non_printable (c : ascii) : bool :=
  let n := Ascii.N_of_ascii c in
  (N.ltb n 32 || (N.leb 127 n && N.leb n 160) || N.eqb n 173)%bool.

Fixpoint repr_chars (q : ascii) (s : string) : string :=
  match s with
  | EmptyString => EmptyString
  | String c s' =>
      let n := Ascii.N_of_ascii c in
      let esc :=
        if Ascii.eqb c "\" then "\\"
        else if Ascii.eqb c q then String "\" (String q EmptyString)
        else if N.eqb n 10 then "\n"
        else if N.eqb n 13 then "\r"
        else if N.eqb n 9 then "\t"
        else if non_printable c then
          String "\" (String "x" (String (hex_char (N.div n 16))
                                   (String (hex_char (N.modulo n 16)) EmptyString)))
        else String c EmptyString in
      (esc ++ repr_chars q s')%string
  end.

Definition contains_char (c : ascii) (s : string) : bool :=
  existsb (Ascii.eqb c) (list_ascii_of_string s).

Definition squote : ascii := Ascii.ascii_of_nat 39.
Definition dquote : ascii := Ascii.ascii_of_nat 34.

(** [repr(s)] for a [str]. *)
Definition repr_str (s : string) : string :=
  let q := if andb (contains_char squote s) (negb (contains_char dquote s))
           then dquote else squote in
  (String q (repr_chars q s) ++ String q EmptyString)%string.

Fixpoint join (sep : string) (l : list string) : string :=
  match l with
  | [] => EmptyString
  | [x] => x
  | x :: l' => (x ++ sep ++ join sep l')%string
  end.

(** [repr] of a value of a parsed log. *)
Fixpoint py_repr (v : json) : string :=
  match v with
  | JNull => "None"
  | JBool true => "True"
  | JBool false => "False"
  | JInt z => string_of_Z z
  | JStr s => repr_str s
  | JList l => ("[" ++ join ", " (map py_repr l) ++ "]")%string
  | JDict items =>
      ("{" ++ join ", " (map (fun '(k, x) => repr_str k ++ ": " ++ py_repr x) items)
         ++ "}")%string
  end.

(** [str(v)]: the string itself for a [str], [repr] otherwise. *)
Definition py_str (v : json) : string :=
  match v with JStr s => s | _ => py_repr v end.

Definition is_py_space (c : ascii) : bool :=
  let n := Ascii.N_of_ascii c in
  (N.eqb n 32 || (N.leb 9 n && N.leb n 13) || (N.leb 28 n && N.leb n 31))%bool.

Fixpoint lstrip (s : string) : string :=
  match s with
  | String c s' => if is_py_space c then lstrip s' else s
  | EmptyString => EmptyString
  end.

Definition strip (s : string) : string :=
  string_of_list_ascii (rev (list_ascii_of_string
    (lstrip (string_of_list_ascii (rev (list_ascii_of_string (lstrip s))))))).

(** Decimal digits with single underscores between them, as [int()] reads
    them; [prev_digit] tells whether the previous character was a digit. *)
Fixpoint read_digits (s : string) (acc : Z) (prev_digit : bool) : option Z :=
  match s with
  | EmptyString => if prev_digit then Some acc else None
  | String c s' =>
      if Ascii.eqb c "_" then (if prev_digit then read_digits s' acc false else None)
      else match digit_value c with
           | Some d => read_digits s' (10 * acc + Z.of_nat d)%Z true
           | None => None
           end
  end.

(** [int(v)] for a [str] or an [int]; [None] where Python raises. *)
Definition py_int (v : json) : option Z :=
  match v with
  | JInt z => Some z
  | JBool b => Some (if b then 1%Z else 0%Z)
  | JStr s =>
      match strip s with
      | String "-" rest => option_map Z.opp (read_digits rest 0 false)
      | String "+" rest => read_digits rest 0 false
      | t => read_digits t 0 false
      end
  | _ => None
  end.

(** [d[key]] on a dict of a parsed log. *)
Definition dict_get (d : json) (key : string) : option json :=
  match d with
  | JDict items =>
      match find (fun kv => String.eqb (fst kv) key) items with
      | Some (_, v) => Some v
      | None => None
      end
  | _ => None
  end.

(** The exception [int(v)] raises where [py_int v] is [None]: an invalid
    literal is a [ValueError], a value of another type a [TypeError]. *)
Definition py_int_error (v : json) : exn :=
  match v with
  | JStr s => Exn "ValueError" ("invalid literal for int() with base 10: " ++ repr_str s) None
  | JNull => Exn "TypeError"
               "int() argument must be a string, a bytes-like object or a real number, not 'NoneType'"
               None
  | JList _ => Exn "TypeError"
                 "int() argument must be a string, a bytes-like object or a real number, not 'list'"
                 None
  | JDict _ => Exn "TypeError"
                 "int() argument must be a string, a bytes-like object or a real number, not 'dict'"
                 None
  | _ => Exn "ValueError" "invalid literal for int() with base 10" None
  end.

Definition AssertionError : exn := Exn "AssertionError" EmptyString None.

Section Extractors.
(** [json.loads], from the standard library: [inl msg] when it raises
    [JSONDecodeError(msg)]. *)
Variable json_loads : string -> string + json.

Definition get_code_id (response : GetTxResponse) : M Z :=
  match json_loads (raw_log (tx_response response)) with
  | inl msg => raise (Exn "JSONDecodeError" msg None)
  | inr raw_log_ =>
      match _find_item raw_log_ CODE_ID_RE with
      | None => raise AssertionError
      | Some res_dict =>
          match dict_get res_dict "value" with
          | None => raise (Exn "KeyError" "'value'" None)
          | Some v =>
              match py_int v with
              | Some n => ret n
              | None => raise (py_int_error v)
              end
          end
      end
  end.

Definition get_contract_address (response : GetTxResponse) : M string :=
  match json_loads (raw_log (tx_response response)) with
  | inl msg => raise (Exn "JSONDecodeError" msg None)
  | inr raw_log_ =>
      match _find_item raw_log_ CONTRACT_ADDRESS_RE with
      | None => raise AssertionError
      | Some res_dict =>
          match dict_get res_dict "value" with
          | None => raise (Exn "KeyError" "'value'" None)
          | Some v =>
              match is_valid_crypto_address (py_str v) default_prefix with
              | Some true => ret (py_str v)
              | _ => raise AssertionError
              end
          end
      end
  end.

End Extractors.

(** ** The contract workflows *)

(** [MessageToDict] of a [GetTxResponse]: fields in declaration order, in
    lowerCamelCase, fields at their default value omitted. *)
Definition message_to_dict (r : GetTxResponse) : json :=
  let t := tx_response r in
  JDict [("txResponse", JDict
    ((if String.eqb (txhash t) EmptyString then [] else [("txhash", JStr (txhash t))])
     ++ (if Z.eqb (code t) 0 then [] else [("code", JInt (code t))])
     ++ (if String.eqb (raw_log t) EmptyString then [] else [("rawLog", JStr (raw_log t))])))].

Definition get_packed_init_msg (sender_address : string) (code_id_ : Z) (init_msg : json)
    (label_ : string) : ProtoAny :=
  PackedMsg (MsgInstantiateContract sender_address code_id_ init_msg label_ []).

Definition get_packed_exec_msg (sender_address contract_address : string) (msg_ : json)
    (funds_ : option (list Coin)) : ProtoAny :=
  PackedMsg (MsgExecuteContract sender_address contract_address msg_
               (match funds_ with Some f => f | None => [] end)).

Section Workflows.
Variable self : CosmosLedger.
Variable node : Node.
Variable json_loads : string -> string + json.

(** [get_packed_store_msg]: [wasm_byte_code] holds the file's contents (their
    gzip compression is not modelled). *)
Definition get_packed_store_msg (sender_address contract_filename : string) : M ProtoAny :=
  match read_file node contract_filename with
  | Some contents => ret (PackedMsg (MsgStoreCode sender_address contents))
  | None => raise (Exn "FileNotFoundError" "No such file or directory" None)
  end.

(** The part of a [try] block that builds, signs and broadcasts one message. *)
Definition submit (crypto : CosmosCrypto) (msg : ProtoAny) (gas : Z) : M GetTxResponse :=
  tx <- generate_tx self node [msg] [cr_address crypto] [cr_pubkey crypto] None EmptyString gas ;;
  tx' <- sign_tx self node crypto tx ;;
  broadcast_tx self node tx' None.

Definition deploy_submit (crypto : CosmosCrypto) (contract_filename : string) (gas : Z)
    : M GetTxResponse :=
  msg <- get_packed_store_msg (cr_address crypto) contract_filename ;;
  submit crypto msg gas.

(** The [while code_id is None and attempt < self.n_total_msg_retries] loop
    of [deploy_contract]. *)
Fixpoint deploy_loop (crypto : CosmosCrypto) (contract_filename : string) (gas : Z)
    (k : nat) (res : option GetTxResponse) (last_exception : option exn)
    : M (option Z * option GetTxResponse * option exn) :=
  match k with
  | O => ret (None, res, last_exception)
  | S k' =>
      let on_error (res' : option GetTxResponse) (e : exn) : M _ :=
        if is_cls "BroadcastException" e then
          sleep (msg_failed_retry_interval self) ;;;
          deploy_loop crypto contract_filename gas k' res' (Some e)
        else raise e in
      fun w =>
        match deploy_submit crypto contract_filename gas w with
        | (Err e, w1) => on_error res e w1
        | (Ok r, w1) =>
            match get_code_id json_loads r w1 with
            | (Ok c, w2) => (Ok (Some c, Some r, last_exception), w2)
            | (Err e, w2) => on_error (Some r) e w2
            end
        end
  end.

Definition deploy_contract (crypto : CosmosCrypto) (contract_filename : string) (gas : Z)
    : M (Z * json) :=
  p <- deploy_loop crypto contract_filename gas (Z.to_nat (n_total_msg_retries self)) None None ;;
  match p with
  | (Some c, Some r, _) => ret (c, message_to_dict r)
  | (_, _, last_exception) =>
      raise (Exn "BroadcastException"
               ("Failed to deploy contract code after multiple attempts: "
                  ++ str_opt_exn last_exception) None)
  end.

Definition instantiate_submit (crypto : CosmosCrypto) (code_id_ : Z) (init_msg : json)
    (label_ : string) (gas : Z) : M GetTxResponse :=
  submit crypto (get_packed_init_msg (cr_address crypto) code_id_ init_msg label_) gas.

(** The [while contract_address is None and attempt < ...] loop of
    [instantiate_contract]: a [BroadcastException] or a [JSONDecodeError] is
    remembered, then the failed-retry interval is slept; any other exception
    propagates. *)
Fixpoint instantiate_loop (crypto : CosmosCrypto) (code_id_ : Z) (init_msg : json)
    (label_ : string) (gas : Z) (k : nat) (res : option GetTxResponse)
    (last_exception : option exn) : M (option string * option GetTxResponse * option exn) :=
  match k with
  | O => ret (None, res, last_exception)
  | S k' =>
      let on_error (res' : option GetTxResponse) (e : exn) : M _ :=
        if orb (is_cls "BroadcastException" e) (is_cls "JSONDecodeError" e) then
          sleep (msg_failed_retry_interval self) ;;;
          instantiate_loop crypto code_id_ init_msg label_ gas k' res' (Some e)
        else raise e in
      fun w =>
        match instantiate_submit crypto code_id_ init_msg label_ gas w with
        | (Err e, w1) => on_error res e w1
        | (Ok r, w1) =>
            match get_contract_address json_loads r w1 with
            | (Ok a, w2) => (Ok (Some a, Some r, last_exception), w2)
            | (Err e, w2) => on_error (Some r) e w2
            end
        end
  end.

Definition instantiate_contract (crypto : CosmosCrypto) (code_id_ : Z) (init_msg : json)
    (label_ : string) (gas : Z) : M (string * json) :=
  p <- instantiate_loop crypto code_id_ init_msg label_ gas
         (Z.to_nat (n_total_msg_retries self)) None None ;;
  match p with
  | (Some a, Some r, _) => ret (a, message_to_dict r)
  | (_, res, last_exception) =>
      let error_msg := match res with Some r => raw_log (tx_response r) | None => EmptyString end in
      raise (Exn "BroadcastException"
               ("Failed to init contract after multiple attempts: "
                  ++ str_opt_exn last_exception ++ " " ++ error_msg) None)
  end.

Definition execute_submit (crypto : CosmosCrypto) (contract_address : string)
    (execute_msg : json) (gas : Z) (amount_ : option (list Coin)) : M GetTxResponse :=
  submit crypto (get_packed_exec_msg (cr_address crypto) contract_address execute_msg amount_) gas.

Fixpoint execute_loop (crypto : CosmosCrypto) (contract_address : string)
    (execute_msg : json) (gas : Z) (amount_ : option (list Coin)) (k : nat)
    (res : option GetTxResponse) (last_exception : option exn)
    : M (option GetTxResponse * option exn) :=
  match k with
  | O => ret (res, last_exception)
  | S k' =>
      fun w =>
        match execute_submit crypto contract_address execute_msg gas amount_ w with
        | (Ok r, w1) => (Ok (Some r, last_exception), w1)  (* break *)
        | (Err e, w1) =>
            if is_cls "BroadcastException" e then
              (sleep (msg_failed_retry_interval self) ;;;
               execute_loop crypto contract_address execute_msg gas amount_ k' res (Some e)) w1
            else (Err e, w1)
        end
  end.

Definition execute_contract (crypto : CosmosCrypto) (contract_address : string)
    (execute_msg : json) (gas : Z) (amount_ : option (list Coin)) (n_retries_ : option Z)
    : M (json * Z) :=
  let n := match n_retries_ with Some n => n | None => n_sending_retries self end in
  p <- execute_loop crypto contract_address execute_msg gas amount_ (Z.to_nat n) None None ;;
  match p with
  | (None, last_exception) =>
      raise (Exn "BroadcastException"
               ("Failed to execute contract after multiple attempts: "
                  ++ str_opt_exn last_exception) last_exception)
  | (Some r, _) => ret (message_to_dict r, code (tx_response r))
  end.

End Workflows.

(** ** Balances and the faucet *)

Section Faucet.
Variable self : CosmosLedger.
Variable node : Node.

(** The [while attempt < self.n_total_msg_retries] loop of [get_balances];
    the [res] it keeps is [res.balances]. *)
Fixpoint balances_loop (address : string) (k : nat) (res : option (list Coin))
    (last_exception : option exn) : M (option (list Coin) * option exn) :=
  match k with
  | O => ret (res, last_exception)
  | S k' =>
      fun w =>
        match invoke (SAllBalances address) (fun i => bank_AllBalances node i address) w with
        | (Ok (Some b), w1) => (Ok (Some b, last_exception), w1)  (* break *)
        | (Ok None, w1) => balances_loop address k' None last_exception w1
        | (Err e, w1) =>
            (sleep (msg_retry_interval self) ;;;
             balances_loop address k' res (Some e)) w1
        end
  end.

Definition get_balances (address : string) : M (list Coin) :=
  p <- balances_loop address (Z.to_nat (n_total_msg_retries self)) None None ;;
  match p with
  | (None, last_exception) =>
      raise (Exn "BroadcastException"
               ("Getting balances failed after multiple attempts: "
                  ++ str_opt_exn last_exception) None)
  | (Some b, _) => ret b
  end.

(** [amount if amount else 500000000] *)
Definition min_amount_required (amount_ : option Z) : Z :=
  match amount_ with
  | Some a => if Z.eqb a 0 then 500000000 else a
  | None => 500000000
  end.

(** The [try] block of one iteration of the faucet loop; [true] is
    [continue], [false] is [break]. *)
Definition refill_attempt (address : string) (min_amount : Z) : M bool :=
  balances <- get_balances address ;;
  let balance := match balances with c :: _ => amount c | [] => 0%Z end in
  if Z.ltb balance min_amount then
    response <- invoke (SFaucetClaim address) (fun i => faucet_claims node i address) ;;
    match response with
    | None => raise (Exn "AttributeError"
                       "'NoneType' object has no attribute 'status_code'" None)
    | Some _ =>
        sleep (faucet_retry_interval self) ;;;
        ret true
    end
  else
    emit (EvInfoBalance address balance) ;;;
    ret false.

(** The per-address [while attempt < self.n_total_msg_retries] loop; the
    [except Exception] handler sleeps the faucet interval. *)
Fixpoint refill_loop (address : string) (min_amount : Z) (k : nat) : M unit :=
  match k with
  | O => ret tt
  | S k' =>
      again <- try_except (refill_attempt address min_amount) any_exception
                 (fun _ => sleep (faucet_retry_interval self) ;;; ret true) ;;
      if again then refill_loop address min_amount k' else ret tt
  end.

Fixpoint refill_addresses (addresses : list string) (min_amount : Z) : M unit :=
  match addresses with
  | [] => ret tt
  | a :: rest =>
      refill_loop a min_amount (Z.to_nat (n_total_msg_retries self)) ;;;
      refill_addresses rest min_amount
  end.

Definition refill_wealth_from_faucet (addresses : list string) (amount_ : option Z) : M unit :=
  refill_addresses addresses (min_amount_required amount_).

End Faucet.

Definition is_faucet_claim (ev : event) : bool :=
  match ev with EvCall (SFaucetClaim _) => true | _ => false end.

Definition count_faucet_claims (l : list event) : nat := length (filter is_faucet_claim l).

Definition is_info_balance (ev : event) : bool :=
  match ev with EvInfoBalance _ _ => true | _ => false end.

(** The ["Balance of %s is %s"] lines of a log. *)
Definition count_info_balances (l : list event) : nat := length (filter is_info_balance l).

(** [int(balances[0].amount) if balances else 0] *)
Definition first_balance (balances : list Coin) : Z :=
  match balances with c :: _ => amount c | [] => 0%Z end.

Definition is_info_balance_for (a : string) (ev : event) : bool :=
  match ev with EvInfoBalance a' _ => String.eqb a a' | _ => false end.

(** ** The address format as the spec words it *)

Definition is_lower (c : ascii) : bool := in_range c ("a", "z")%char.
Definition is_lower_alnum (c : ascii) : bool :=
  (in_range c ("0", "9")%char || in_range c ("a", "z")%char)%bool.

(** [p] followed by exactly 39 characters of [[0-9a-z]]. *)
Definition spec_address_form (p address : string) : Prop :=
  exists s, address = (p ++ s)%string /\ String.length s = 39
            /\ forallb is_lower_alnum (list_ascii_of_string s) = true.

(** A nonempty lowercase-letter prefix followed by exactly 39 characters of
    [[0-9a-z]]. *)
Definition default_address_form (address : string) : Prop :=
  exists p s, address = (p ++ s)%string /\ p <> EmptyString
              /\ forallb is_lower (list_ascii_of_string p) = true
              /\ String.length s = 39
              /\ forallb is_lower_alnum (list_ascii_of_string s) = true.

Definition suffix39 : string := "qqqqqqqqqqqqqqqqqqqqqqqqqqqqqqqqqqqqqqq".

(** An address of the right shape followed by a newline. *)
Definition cosmos_address_nl : string :=
  ("cosmos1" ++ suffix39 ++ String newline EmptyString)%string.

Definition fetch_address_nl : string :=
  ("fetch" ++ suffix39 ++ String newline EmptyString)%string.

(** The parsed confirmation log of an instantiation whose contract address
    ends with a newline (the JSON text carries it as the escape [\n]). *)
Definition instantiate_log_nl : json :=
  JList [JDict [("events", JList [JDict [("type", JStr "instantiate");
    ("attributes", JList [JDict [("key", JStr "contract_address");
                                 ("value", JStr fetch_address_nl)]])]])]].

Definition quoted (s : string) : string :=
  String dquote (s ++ String dquote EmptyString)%string.

Definition instantiate_raw_log_nl : string :=
  ("[{" ++ quoted "events" ++ ":[{" ++ quoted "type" ++ ":" ++ quoted "instantiate"
   ++ "," ++ quoted "attributes" ++ ":[{" ++ quoted "key" ++ ":"
   ++ quoted "contract_address" ++ "," ++ quoted "value" ++ ":"
   ++ quoted ("fetch" ++ suffix39 ++ "\n") ++ "}]}]}]")%string.

Definition instantiate_response_nl : GetTxResponse :=
  mkGetTxResponse (mkTxResponse 0 instantiate_raw_log_nl "A1B2").

(** ** The other methods of [CosmosLedger] *)

(** A call to a client method outside [service] (the bank [Balance], the
    wasm [SmartContractState], the REST [get] and the tendermint
    [GetNodeInfo]): answered by its oracle at the current clock, which it
    advances, and not entered in the log. *)
Definition invoke_unlogged {V} (o : nat -> outcome V) : M (option V) :=
  fun w =>
    let w' := mkWorld (S (clock w)) (log w) (acct_num w) in
    match o (clock w) with
    | Raised e => (Err e, w')
    | Returned r => (Ok r, w')
    end.

Definition get_packed_send_msg (from_address to_address : string) (amount_ : list Coin)
    : ProtoAny :=
  PackedMsg (MsgSend from_address to_address amount_).

(** [v[key]] on a value of a parsed JSON document: [inl] the exception
    Python raises. *)
Definition py_getitem (v : json) (key : string) : exn + json :=
  match v with
  | JDict _ =>
      match dict_get v key with
      | Some x => inr x
      | None => inl (Exn "KeyError" (repr_str key) None)
      end
  | JList _ => inl (Exn "TypeError" "list indices must be integers or slices, not str" None)
  | JStr _ => inl (Exn "TypeError" "string indices must be integers" None)
  | JInt _ => inl (Exn "TypeError" "'int' object is not subscriptable" None)
  | JBool _ => inl (Exn "TypeError" "'bool' object is not subscriptable" None)
  | JNull => inl (Exn "TypeError" "'NoneType' object is not subscriptable" None)
  end.

Definition raise_sum {A} (r : exn + A) : M A :=
  match r with inl e => raise e | inr a => ret a end.

(** The client the constructor set up: exactly one of [rest_client] and
    [rpc_client] is set (the constructor raises [ValueError] otherwise). *)
Inductive NodeClient : Type :=
| RestNode (rest_get : nat -> string -> outcome string)
| RpcNode (GetNodeInfo : nat -> outcome string).

Section MoreLedger.
Variable self : CosmosLedger.
Variable node : Node.

(** [self.bank_client.Balance(...)], answering [res.balance]. *)
Variable bank_Balance : nat -> string -> string -> outcome Coin.

Fixpoint balance_loop (address denom : string) (k : nat) (res : option Coin)
    (last_exception : option exn) : M (option Coin * option exn) :=
  match k with
  | O => ret (res, last_exception)
  | S k' =>
      fun w =>
        match invoke_unlogged (fun i => bank_Balance i address denom) w with
        | (Ok (Some b), w1) => (Ok (Some b, last_exception), w1)  (* break *)
        | (Ok None, w1) => balance_loop address denom k' None last_exception w1
        | (Err e, w1) =>
            (sleep (msg_retry_interval self) ;;;
             balance_loop address denom k' res (Some e)) w1
        end
  end.

Definition get_balance (address denom : string) : M Z :=
  p <- balance_loop address denom (Z.to_nat (n_total_msg_retries self)) None None ;;
  match p with
  | (None, last_exception) =>
      raise (Exn "BroadcastException"
               ("Getting balance failed after multiple attempts: "
                  ++ str_opt_exn last_exception) None)
  | (Some b, _) => ret (amount b)
  end.

(** [self.wasm_client.SmartContractState(request)], answering [res.data],
    and [json.dumps], [json.loads]. *)
Variable wasm_SmartContractState : nat -> string -> string -> outcome string.
Variable json_dumps : json -> string.
Variable json_loads : string -> string + json.

Fixpoint contract_state_loop (address query_data : string) (k : nat) (res : option string)
    (last_exception : option exn) : M (option string * option exn) :=
  match k with
  | O => ret (res, last_exception)
  | S k' =>
      fun w =>
        match invoke_unlogged (fun i => wasm_SmartContractState i address query_data) w with
        | (Ok (Some d), w1) => (Ok (Some d, last_exception), w1)  (* break *)
        | (Ok None, w1) => contract_state_loop address query_data k' None last_exception w1
        | (Err e, w1) =>
            (sleep (msg_failed_retry_interval self) ;;;
             contract_state_loop address query_data k' res (Some e)) w1
        end
  end.

Definition query_contract_state (contract_address : string) (msg_ : json)
    (n_retries_ : option Z) : M json :=
  let query_data := json_dumps msg_ in
  let n := match n_retries_ with Some n => n | None => n_total_msg_retries self end in
  p <- contract_state_loop contract_address query_data (Z.to_nat n) None None ;;
  match p with
  | (None, last_exception) =>
      raise (Exn "BroadcastException"
               ("Getting contract state failed after multiple attempts: "
                  ++ str_opt_exn last_exception) last_exception)
  | (Some d, _) =>
      match json_loads d with
      | inl m => raise (Exn "JSONDecodeError" m None)
      | inr j => ret j
      end
  end.

Definition send_funds (from_crypto : CosmosCrypto) (to_address : string)
    (amount_coins : list Coin) : M GetTxResponse :=
  let from_address := cr_address from_crypto in
  let msg := get_packed_send_msg from_address to_address amount_coins in
  tx <- generate_tx self node [msg] [from_address] [cr_pubkey from_crypto] None EmptyString
          DEFAULT_GAS_LIMIT ;;
  tx' <- sign_tx self node from_crypto tx ;;
  broadcast_tx self node tx' None.

Fixpoint refill_wealth_from_validator (validator_crypto : CosmosCrypto)
    (addresses : list string) (required_amount_coins : list Coin) : M unit :=
  match addresses with
  | [] => ret tt
  | address :: rest =>
      send_funds validator_crypto address required_amount_coins ;;;
      refill_wealth_from_validator validator_crypto rest required_amount_coins
  end.

(** [ensure_funds]; [validator_crypto] is the attribute the constructor
    stores. *)
Definition ensure_funds (validator_crypto : option CosmosCrypto) (addresses : list string)
    (amount_coins : option (list Coin)) : M unit :=
  match faucet_url self with
  | Some _ => refill_wealth_from_faucet self node addresses None
  | None =>
      match validator_crypto with
      | Some v =>
          match amount_coins with
          | None => raise (Exn "RuntimeError" "Amounts are required for validator refill" None)
          | Some coins => refill_wealth_from_validator v addresses coins
          end
      | None =>
          raise (Exn "RuntimeError"
                   "Faucet or validator was not specified, cannot refill addresses" None)
      end
  end.

(** The [try] block of [check_availability]. *)
Definition node_network_check (client : NodeClient) : M unit :=
  match client with
  | RestNode rest_get =>
      body <- invoke_unlogged (fun i => rest_get i "/node_info") ;;
      match body with
      | None => raise (Exn "TypeError"
                         "the JSON object must be str, bytes or bytearray, not NoneType" None)
      | Some s =>
          match json_loads s with
          | inl m => raise (Exn "JSONDecodeError" m None)
          | inr result =>
              node_info <- raise_sum (py_getitem result "node_info") ;;
              network <- raise_sum (py_getitem node_info "network") ;;
              match network with
              | JStr n => if String.eqb n (chain_id self) then ret tt
                          else raise (Exn "ValueError" "Bad chain id" None)
              | _ => raise (Exn "ValueError" "Bad chain id" None)
              end
          end
      end
  | RpcNode get_node_info =>
      node_info <- invoke_unlogged get_node_info ;;
      match node_info with
      | None => raise (Exn "AttributeError"
                         "'NoneType' object has no attribute 'default_node_info'" None)
      | Some network =>
          if String.eqb network (chain_id self) then ret tt
          else raise (Exn "ValueError" "Bad chain id" None)
      end
  end.

Definition check_availability (client : NodeClient) (node_address : string) : M unit :=
  try_except (node_network_check client) any_exception
    (fun e => raise (Exn "LedgerServerNotAvailable"
                       ("ledger server is not available with address: " ++ node_address
                          ++ ": " ++ exn_msg e) (Some e))).

End MoreLedger.

(** ** Observations on the rest of the ledger *)

Definition is_call (ev : event) : bool :=
  match ev with EvCall _ => true | _ => false end.

Definition count_calls (l : list event) : nat := length (filter is_call l).

(** The default address check, read as a format: a nonempty run of
    lowercase letters, 39 characters of [[0-9a-z]], then nothing or one
    newline. *)
Definition default_check_form (address : string) : Prop :=
  exists p u e, address = (p ++ u ++ e)%string /\ p <> EmptyString
                /\ forallb is_lower (list_ascii_of_string p) = true
                /\ String.length u = 39
                /\ forallb is_lower_alnum (list_ascii_of_string u) = true
                /\ (e = EmptyString \/ e = String newline EmptyString).

(** The pattern [is_valid_crypto_address] compiles for the default prefix. *)
Definition default_addr_re : regex :=
  [PBol; PAtom (AClass [("a", "z")%char]) QPlus;
   PAtom (AClass [("0", "9")%char; ("a", "z")%char]) (QRep 39); PEol].

(** ** Sample inputs *)

(** A sample [Retrier] as [broadcast_tx] builds it, and a start world. *)
Definition broadcast_retrier (n : Z) : Retrier :=
  mkRetrier n 2 true "Transaction broadcasting" "BroadcastException".

Definition world0 : world := mkWorld 0 [] (fun _ => None).

Definition unavailable : exn := Exn "ConnectionError" "node unreachable" None.

Definition fails_twice (i : nat) : outcome Z :=
  if (i <? 2)%nat then Raised unavailable else Returned (Some 7%Z).

(** A node that knows every address (account number 7, sequence 3),
    acknowledges every broadcast with [ack_code] and confirms it with
    [confirm_code] and [confirm_log]; every balance is empty and the faucet
    answers 200. *)
Definition demo_node (ack_code confirm_code : Z) (confirm_log : string) : Node :=
  mkNode
    (fun _ a => Returned (Some (mkQueryAccountResponse (AnyBaseAccount (mkBaseAccount a 7 3)))))
    (fun _ _ => Returned (Some (mkBroadcastTxResponse
                                  (mkTxResponse ack_code "account sequence mismatch" "A1B2"))))
    (fun _ _ => Returned (Some (mkGetTxResponse (mkTxResponse confirm_code confirm_log "A1B2"))))
    (fun _ _ => Returned (Some []))
    (fun _ _ => Returned (Some 200%Z))
    (fun _ => Some "wasm").

Definition demo_ledger (n_total : Z) : CosmosLedger :=
  mkLedger "testnet" (Some "http://127.0.0.1:8000") 2 10 20 1 n_total (1 # 2) 30.

Definition demo_address : string := ("fetch1" ++ suffix39)%string.

Definition demo_crypto : CosmosCrypto := mkCrypto 0 demo_address "pubkey" "privkey".

Definition demo_tx : Tx := mkTx (mkTxBody [] EmptyString) (mkAuthInfo [] (mkFee [] 0)) [].

(** [json.loads] on the raw logs of the sample runs: ["{}"] parses to the
    empty dict, any other of them fails to parse. *)
Definition demo_loads (s : string) : string + json :=
  if String.eqb s "{}" then inr (JDict []) else inl "Expecting value: line 1 column 1 (char 0)".

Definition is_broadcast (ev : event) : bool :=
  match ev with EvCall SBroadcastTx => true | _ => false end.

Definition count_broadcasts (l : list event) : nat := length (filter is_broadcast l).

Definition demo_confirmation (confirm_code : Z) (confirm_log : string) : GetTxResponse :=
  mkGetTxResponse (mkTxResponse confirm_code confirm_log "A1B2").

(** A node like [demo_node] whose balances all hold 600000000 atestfet. *)
Definition funded_node : Node :=
  let d := demo_node 0 0 EmptyString in
  mkNode (auth_Account d) (tx_BroadcastTx d) (tx_GetTx d)
    (fun _ _ => Returned (Some [mkCoin "atestfet" 600000000]))
    (faucet_claims d) (read_file d).

(** A node like [demo_node] whose accounts are all vesting accounts. *)
Definition vesting_node : Node :=
  let d := demo_node 0 0 EmptyString in
  mkNode
    (fun _ _ => Returned (Some (mkQueryAccountResponse
                                  (AnyOtherAccount "/cosmos.vesting.v1beta1.ContinuousVestingAccount"))))
    (tx_BroadcastTx d) (tx_GetTx d) (bank_AllBalances d) (faucet_claims d) (read_file d).

(** A contract address as the chain writes it: ["fetch1"] and 38 more
    characters. *)
Definition contract_address_value : string := "fetch1qqqqqqqqqqqqqqqqqqqqqqqqqqqqqqqqqqqqqq".

Definition contract_address_log : json :=
  JList [JDict [("type", JStr "instantiate");
                ("attributes", JList [JDict [("key", JStr "_contract_address");
                                             ("value", JStr contract_address_value)]])]].

(** The answer of a node's [/node_info] endpoint, as [json.loads] parses it. *)
Definition node_info_testnet : json :=
  JDict [("node_info", JDict [("network", JStr "testnet"); ("version", JStr "0.34")])].

(** * Theorems *)

Section RetrierProofs.
Context {V : Type}.

Lemma concat_repeat_comm {A} (b : list A) (m : nat) :
  concat (repeat b m) ++ b = b ++ concat (repeat b m).
Proof.
  induction m as [|m IH]; simpl.
  - now rewrite app_nil_r.
  - rewrite <- app_assoc, IH. reflexivity.
Qed.

Lemma retry_loop_failures (r : Retrier) (s : service) (o : nat -> outcome V)
    (m k : nat) (errs : nat -> exn) (le : option exn) (resp : option V) (w : world) :
  (forall i, (i < m)%nat -> o (clock w + i)%nat = Raised (errs i)) ->
  retry_loop r (invoke s o) (m + k) le resp w =
  retry_loop r (invoke s o) k (last_failure m le errs) resp (after_failures r s m w).
Proof.
  revert errs le w.
  induction m as [|m IH]; intros errs le w Hfail.
  - simpl. unfold after_failures. simpl. rewrite Nat.add_0_r.
    destruct w; reflexivity.
  - simpl. unfold invoke at 1.
    pose proof (Hfail 0%nat ltac:(lia)) as H0. rewrite Nat.add_0_r in H0.
    rewrite H0. unfold bind, sleep, emit. simpl.
    rewrite (IH (fun i => errs (S i)) (Some (errs 0%nat))).
    + f_equal.
      * destruct m; reflexivity.
      * unfold after_failures; simpl. f_equal; [lia|].
        simpl.
        change (EvSleep (retry_interval r) :: EvCall s :: log w)
          with (failed_attempt r s ++ log w).
        rewrite app_assoc, concat_repeat_comm, <- app_assoc. reflexivity.
    + intros i Hi. simpl. rewrite <- (Hfail (S i)) by lia. f_equal. lia.
Qed.

Lemma count_sleeps_failures (r : Retrier) (s : service) (m : nat) (l : list event) :
  count_sleeps (concat (repeat (failed_attempt r s) m) ++ l) = (m + count_sleeps l)%nat.
Proof.
  induction m as [|m IH]; [reflexivity|].
  unfold count_sleeps in *. simpl. now rewrite IH.
Qed.

(** C1 (as amended).  With [n_retries = m + 1], an operation that raises on
    its first [m] calls and returns [v <> None] on call [m + 1] makes
    [call_with_retry] return [v] after exactly [m + 1] calls and [m] sleeps.
    With [n_retries = K >= 1] and an operation that raises on every call,
    [call_with_retry] calls it [K] times, sleeps the retry interval after
    each of the [K] failures (also after the last one) and raises
    [exception_type] whose message names the last exception and whose cause
    is that exception. *)
Theorem call_with_retry_spec (r : Retrier) (s : service) (o : nat -> outcome V)
    (errs : nat -> exn) (w : world) :
  (forall (m : nat) (v : V),
      n_retries r = Z.of_nat (S m) ->
      (forall i, (i < m)%nat -> o (clock w + i)%nat = Raised (errs i)) ->
      o (clock w + m)%nat = Returned (Some v) ->
      call_with_retry r (invoke s o) w =
        (Ok v, mkWorld (clock w + S m)
                 (EvCall s :: concat (repeat (failed_attempt r s) m) ++ log w)
                 (acct_num w))
      /\ count_sleeps (concat (repeat (failed_attempt r s) m)) = m)
  /\
  (forall K : nat,
      (1 <= K)%nat ->
      n_retries r = Z.of_nat K ->
      (forall i, (i < K)%nat -> o (clock w + i)%nat = Raised (errs i)) ->
      call_with_retry r (invoke s o) w =
        (Err (Exn (exception_type r)
                  (call_name r ++ " failed after multiple attempts: "
                     ++ exn_msg (errs (K - 1)%nat))%string
                  (Some (errs (K - 1)%nat))),
         after_failures r s K w)
      /\ count_sleeps (concat (repeat (failed_attempt r s) K)) = K).
Proof.
  split.
  - intros m v Hn Hfail Hok. split.
    2:{ pose proof (count_sleeps_failures r s m []) as Hc.
        rewrite app_nil_r in Hc. rewrite Hc. unfold count_sleeps. simpl. lia. }
    unfold call_with_retry, bind. rewrite Hn, Nat2Z.id.
    replace (S m) with (m + 1)%nat by lia.
    rewrite (retry_loop_failures r s o m 1 errs None None w Hfail).
    simpl. unfold invoke at 1. unfold after_failures at 1. simpl.
    rewrite Hok. simpl. unfold ret. do 2 f_equal. lia.
  - intros K HK Hn Hfail. split.
    2:{ pose proof (count_sleeps_failures r s K []) as Hc.
        rewrite app_nil_r in Hc. rewrite Hc. unfold count_sleeps. simpl. lia. }
    unfold call_with_retry, bind. rewrite Hn, Nat2Z.id.
    rewrite <- (Nat.add_0_r K) at 1.
    rewrite (retry_loop_failures r s o K 0 errs None None w Hfail).
    destruct K as [|K']; [lia|]. simpl. rewrite Nat.sub_0_r. reflexivity.
Qed.

End RetrierProofs.

Lemma call_with_retry_spec_witness :
  call_with_retry (broadcast_retrier 3) (invoke SBroadcastTx fails_twice) world0
  = (Ok 7%Z, mkWorld 3 [EvCall SBroadcastTx; EvSleep 2; EvCall SBroadcastTx;
                       EvSleep 2; EvCall SBroadcastTx] (fun _ => None))
  /\
  call_with_retry (broadcast_retrier 2) (invoke (V := Z) SBroadcastTx (fun _ => Raised unavailable))
    world0
  = (Err (Exn "BroadcastException"
              "Transaction broadcasting failed after multiple attempts: node unreachable"
              (Some unavailable)),
     mkWorld 2 [EvSleep 2; EvCall SBroadcastTx; EvSleep 2; EvCall SBroadcastTx]
       (fun _ => None)).
Proof.
  split.
  - apply (proj1 (call_with_retry_spec (broadcast_retrier 3) SBroadcastTx fails_twice
                    (fun _ => unavailable) world0) 2%nat 7%Z); [reflexivity| |reflexivity].
    intros i Hi. unfold fails_twice. simpl.
    destruct (Nat.ltb_spec i 2); [reflexivity|lia].
  - apply (proj2 (call_with_retry_spec (broadcast_retrier 2) SBroadcastTx
                    (fun _ : nat => Raised (V := Z) unavailable) (fun _ => unavailable) world0) 2);
      [lia|reflexivity|].
    intros; reflexivity.
Defined.

(** C1 counterexample: with [n_retries = 1] and an operation that always
    raises, [call_with_retry] sleeps once although no attempt remains after
    the failure: the sleep is the last effect of the run. *)
Lemma call_with_retry_sleeps_after_last_attempt :
  let w' := snd (call_with_retry (broadcast_retrier 1)
                   (invoke (V := Z) SBroadcastTx (fun _ => Raised unavailable)) world0) in
  log w' = [EvSleep 2; EvCall SBroadcastTx] /\ count_sleeps (log w') <> (1 - 1)%nat.
Proof. split; [reflexivity | cbv; discriminate]. Qed.

(** ** Effects of the retry loops on the log *)

Definition only_calls_or_sleeps (s : service) (d : list event) : Prop :=
  Forall (fun ev => ev = EvCall s \/ is_sleep ev = true) d.

Lemma retry_loop_log {V} (r : Retrier) (s : service) (o : nat -> outcome V)
    (k : nat) (le : option exn) (resp : option V) (w : world) res w1 :
  retry_loop r (invoke s o) k le resp w = (res, w1) ->
  exists d, log w1 = d ++ log w /\ only_calls_or_sleeps s d /\ acct_num w1 = acct_num w.
Proof.
  revert le resp w. induction k as [|k IH]; intros le resp w H; simpl in H.
  - inversion H; subst. exists []. repeat split; constructor.
  - unfold invoke in H. destruct (o (clock w)) as [e|[v|]].
    + unfold bind, sleep, emit in H. simpl in H.
      destruct (IH _ _ _ H) as (d & Hl & Hd & Ha). simpl in Hl, Ha.
      exists (d ++ [EvSleep (retry_interval r); EvCall s]).
      rewrite <- app_assoc. repeat split; auto.
      unfold only_calls_or_sleeps in *. apply Forall_app. split; auto.
    + inversion H; subst. exists [EvCall s]. repeat split; auto. repeat constructor; auto.
    + destruct (IH _ _ _ H) as (d & Hl & Hd & Ha). simpl in Hl, Ha.
      exists (d ++ [EvCall s]). rewrite <- app_assoc. repeat split; auto.
      unfold only_calls_or_sleeps in *. apply Forall_app. split; auto.
Qed.

Lemma call_with_retry_log {V} (r : Retrier) (s : service) (o : nat -> outcome V)
    (w : world) res w1 :
  call_with_retry r (invoke s o) w = (res, w1) ->
  exists d, log w1 = d ++ log w /\ only_calls_or_sleeps s d /\ acct_num w1 = acct_num w.
Proof.
  unfold call_with_retry, bind.
  destruct (retry_loop r (invoke s o) (Z.to_nat (n_retries r)) None None w)
    as [[[le [v|]]|e] w2] eqn:E; intro H;
    apply retry_loop_log in E; unfold ret, raise in H; inversion H; subst; exact E.
Qed.

Lemma only_calls_or_sleeps_in (s s' : service) (d : list event) :
  only_calls_or_sleeps s d -> In (EvCall s') d -> s' = s.
Proof.
  unfold only_calls_or_sleeps. rewrite Forall_forall. intros H Hin.
  destruct (H _ Hin) as [E|E]; [congruence|discriminate].
Qed.

Section LedgerProofs.
Variable self : CosmosLedger.
Variable node : Node.

(** C4.  [broadcast_tx] raises a [BroadcastException] whose message carries
    the node's raw log as soon as the synchronous acknowledgment has a
    non-zero code, right after the broadcast retrier, without any receipt
    query; a receipt is polled, and a result returned, only after an
    acknowledgment with code 0, and only for that acknowledgment's hash. *)
Theorem broadcast_tx_nonzero_ack_rejected (tx : Tx) (retries : option Z) (w : world) :
  let n := match retries with Some r => r | None => n_total_msg_retries self end in
  let bcast := call_with_retry (broadcast_retrier_of self n)
                 (invoke SBroadcastTx (fun t => tx_BroadcastTx node t tx)) in
  (forall ack w1,
      bcast w = (Ok ack, w1) ->
      code (b_tx_response ack) <> 0%Z ->
      broadcast_tx self node tx retries w =
        (Err (Exn "BroadcastException"
                  ("Transaction cannot be broadcast: " ++ raw_log (b_tx_response ack)) None),
         w1)
      /\ exists d, log w1 = d ++ log w /\ only_calls_or_sleeps SBroadcastTx d)
  /\
  (forall res w',
      broadcast_tx self node tx retries w = (res, w') ->
      (forall g, res = Ok g ->
         exists ack w1, bcast w = (Ok ack, w1) /\ code (b_tx_response ack) = 0%Z /\
                        get_tx self node (txhash (b_tx_response ack)) w1 = (Ok g, w'))
      /\
      (forall h d, log w' = d ++ log w -> In (EvCall (SGetTx h)) d ->
         exists ack w1, bcast w = (Ok ack, w1) /\ code (b_tx_response ack) = 0%Z
                        /\ h = txhash (b_tx_response ack))).
Proof.
  intros n bcast. split.
  - intros ack w1 Hb Hc. split.
    + unfold broadcast_tx, bind. fold n. fold bcast. rewrite Hb.
      apply Z.eqb_neq in Hc. unfold CLIENT_CODE_MESSAGE_SUCCESSFUL. rewrite Hc.
      reflexivity.
    + destruct (call_with_retry_log _ _ _ _ _ _ Hb) as (d & Hl & Hd & _).
      exists d. auto.
  - intros res w' H.
    unfold broadcast_tx, bind in H. fold n in H. fold bcast in H.
    destruct (bcast w) as [[ack|e] w1] eqn:Hb.
    + destruct (call_with_retry_log _ _ _ _ _ _ Hb) as (d1 & Hl1 & Hd1 & _).
      destruct (Z.eqb (code (b_tx_response ack)) CLIENT_CODE_MESSAGE_SUCCESSFUL) eqn:Hc;
        simpl in H.
      * apply Z.eqb_eq in Hc. split.
        -- intros g ->. exists ack, w1. auto.
        -- intros h d Hl Hin.
           destruct (call_with_retry_log _ _ _ _ _ _ H) as (d2 & Hl2 & Hd2 & _).
           rewrite Hl1, app_assoc, Hl in Hl2. apply app_inv_tail in Hl2. subst d.
           exists ack, w1. repeat split; auto.
           apply in_app_or in Hin as [Hin|Hin].
           ++ apply (only_calls_or_sleeps_in _ _ _ Hd2) in Hin. congruence.
           ++ apply (only_calls_or_sleeps_in _ _ _ Hd1) in Hin. discriminate.
      * inversion H; subst. split; [intros g Hg; discriminate|].
        intros h d Hl Hin. rewrite Hl1 in Hl. apply app_inv_tail in Hl. subst d.
        apply (only_calls_or_sleeps_in _ _ _ Hd1) in Hin. discriminate.
    + destruct (call_with_retry_log _ _ _ _ _ _ Hb) as (d1 & Hl1 & Hd1 & _).
      inversion H; subst. split; [intros g Hg; discriminate|].
      intros h d Hl Hin. rewrite Hl1 in Hl. apply app_inv_tail in Hl. subst d.
      apply (only_calls_or_sleeps_in _ _ _ Hd1) in Hin. discriminate.
Qed.




Lemma account_loop_total (address : string) (k : nat) (le : option exn) (w : world) :
  exists p w1, account_loop self node address k le w = (Ok p, w1).
Proof.
  revert le w. induction k as [|k IH]; intros le w; simpl.
  - unfold ret. eauto.
  - unfold invoke. destruct (auth_Account node (clock w) address) as [e|r].
    + unfold bind, sleep, emit. simpl. apply IH.
    + eauto.
Qed.

Lemma query_account_data_raises (address : string) (w w1 : world) (e : exn) :
  query_account_data self node address w = (Err e, w1) ->
  exn_cls e = "BroadcastException" \/ exn_cls e = "TypeError".
Proof.
  unfold query_account_data, bind.
  destruct (account_loop_total address (Z.to_nat (n_total_msg_retries self)) None w)
    as (p & w2 & ->).
  destruct p as [le [[acc]|]]; simpl.
  - destruct acc; unfold ret, raise; intro H; inversion H; auto.
  - unfold raise. intro H; inversion H; auto.
Qed.

(** C10.  Whenever [_ensure_accont_number crypto] returns, the crypto's
    [account_number] is set; hence [sign_tx] never raises its
    ["Getting account number failed"] [RuntimeError]: either it signs with
    the crypto's (now known) account number, or the account number was
    unknown and the account query raised (a [BroadcastException] or a
    [TypeError]), which [sign_tx] propagates. *)
Theorem sign_tx_account_number_known (crypto : CosmosCrypto) (tx : Tx) (w : world) :
  (forall w', _ensure_accont_number self node crypto w = (Ok tt, w') ->
              exists n, acct_num w' (cr_id crypto) = Some n)
  /\
  ((exists n w', acct_num w' (cr_id crypto) = Some n
                 /\ sign_tx self node crypto tx w
                    = (Ok (sign_transaction tx (cr_private_key crypto) (chain_id self) n), w'))
   \/
   (exists e w', acct_num w (cr_id crypto) = None
                 /\ query_account_data self node (cr_address crypto) w = (Err e, w')
                 /\ sign_tx self node crypto tx w = (Err e, w')
                 /\ (exn_cls e = "BroadcastException" \/ exn_cls e = "TypeError"))).
Proof.
  split.
  - intros w' H. unfold _ensure_accont_number, get_acct_num, bind in H.
    destruct (acct_num w (cr_id crypto)) as [n|] eqn:Hn.
    + unfold ret in H. inversion H; subst. eauto.
    + destruct (query_account_data self node (cr_address crypto) w) as [[acc|e] w1];
        [|discriminate].
      unfold set_acct_num in H. inversion H; subst. simpl.
      rewrite Nat.eqb_refl. eauto.
  - unfold sign_tx, _ensure_accont_number, get_acct_num, bind.
    destruct (acct_num w (cr_id crypto)) as [n|] eqn:Hn.
    + left. exists n, w. unfold ret. rewrite Hn. auto.
    + destruct (query_account_data self node (cr_address crypto) w) as [[acc|e] w1] eqn:Hq.
      * left. unfold set_acct_num. simpl. rewrite Nat.eqb_refl.
        eexists _, _. split; [|reflexivity]. simpl. now rewrite Nat.eqb_refl.
      * right. exists e, w1. repeat split; auto.
        eapply query_account_data_raises; eauto.
Qed.

End LedgerProofs.

(** ** [_find_item] *)

Lemma hd_error_app {A} (l1 l2 : list A) :
  hd_error (l1 ++ l2) = match hd_error l1 with Some x => Some x | None => hd_error l2 end.
Proof. destruct l1; reflexivity. Qed.

Lemma find_item_first_event (re : regex) :
  forall obj, _find_item obj re = hd_error (match_events re obj).
Proof.
  fix IH 1. intros [| | |s|l|items]; try reflexivity.
  - simpl. revert l. fix IHl 1. intros [|x l]; [reflexivity|].
    rewrite hd_error_app, <- IH. destruct (_find_item x re); [reflexivity|].
    apply IHl.
  - change (_find_item (JDict items) re = hd_error
      ((fix go (items0 : list (string * json)) : list json :=
         match items0 with
         | [] => []
         | (_, v) :: items' =>
             (if str_value_matches re v then [JDict items] else [])
               ++ match_events re v ++ go items'
         end) items)).
    simpl. generalize (JDict items) as d. intro d. revert items.
    fix IHl 1. intros [|[k v] items]; [reflexivity|].
    rewrite hd_error_app. unfold str_value_matches.
    destruct (match v with JStr s => re_match re s | _ => false end); [reflexivity|].
    simpl. rewrite hd_error_app, <- IH. destruct (_find_item v re); [reflexivity|].
    apply IHl.
Qed.

Lemma match_events_none (re : regex) :
  forall obj, Forall (fun s => re_match re s = false) (strings_of obj) ->
              match_events re obj = [].
Proof.
  fix IH 1. intros [| | |s|l|items] H; try reflexivity.
  - simpl in *. revert l H. fix IHl 1. intros [|x l] H; [reflexivity|].
    apply Forall_app in H as [H1 H2]. rewrite (IH x H1). apply (IHl l H2).
  - simpl in *. generalize (JDict items) as d. intro d. revert items H.
    fix IHl 1. intros [|[k v] items] H; [reflexivity|].
    apply Forall_app in H as [H1 H2].
    replace (str_value_matches re v) with false.
    + rewrite (IH v H1). apply (IHl items H2).
    + destruct v; try reflexivity. simpl in H1. inversion H1; subst. simpl. congruence.
Qed.

(** C7.  [_find_item] returns the first dict, in the traversal order of
    [match_events] (list elements in order; dict entries in order, each value
    tested for a string match before recursing into it; keys never tested),
    that holds a string value the pattern matches; it returns [None] when no
    string of the tree matches; on the spec's example log with [CODE_ID_RE]
    it returns the innermost dict, the one holding ["value": "42"]. *)
Theorem _find_item_first_match :
  (forall (obj : json) (re : regex), _find_item obj re = hd_error (match_events re obj))
  /\
  (forall (obj : json) (re : regex),
      Forall (fun s => re_match re s = false) (strings_of obj) -> _find_item obj re = None)
  /\
  _find_item code_id_log CODE_ID_RE
  = Some (JDict [("key", JStr "code_id"); ("value", JStr "42")]).
Proof.
  split; [|split].
  - intros obj re. apply find_item_first_event.
  - intros obj re H. rewrite find_item_first_event, match_events_none; auto.
  - vm_compute. reflexivity.
Qed.

(** ** The address check *)

Lemma list_ascii_of_string_app (s1 s2 : string) :
  list_ascii_of_string (s1 ++ s2) = list_ascii_of_string s1 ++ list_ascii_of_string s2.
Proof. induction s1 as [|c s1 IH]; simpl; [reflexivity|now rewrite IH]. Qed.

Lemma newline_not_lower_alnum (s : string) :
  forallb is_lower_alnum (list_ascii_of_string s) = true ->
  ~ In newline (list_ascii_of_string s).
Proof.
  intros H Hin. rewrite forallb_forall in H. specialize (H _ Hin). discriminate.
Qed.

(** C8 (code_bug).  [is_valid_crypto_address] accepts ["cosmos1abc"] as
    false and [p] followed by 39 characters of [[0-9a-z]] as true, but it
    also accepts, for the literal prefix ["cosmos1"], the string [p] followed
    by 39 such characters and a newline, which is not of the form the spec
    states: Python's [$] also matches before a final newline. *)
Theorem is_valid_crypto_address_trailing_newline :
  is_valid_crypto_address "cosmos1abc" "cosmos1" = Some false
  /\ is_valid_crypto_address ("cosmos1" ++ suffix39) "cosmos1" = Some true
  /\ spec_address_form "cosmos1" ("cosmos1" ++ suffix39)
  /\ is_valid_crypto_address cosmos_address_nl "cosmos1" = Some true
  /\ ~ spec_address_form "cosmos1" cosmos_address_nl.
Proof.
  split; [vm_compute; reflexivity|]. split; [vm_compute; reflexivity|].
  split; [exists suffix39; repeat split; vm_compute; reflexivity|].
  split; [vm_compute; reflexivity|].
  intros (s & Heq & _ & Hs).
  apply (newline_not_lower_alnum s Hs).
  assert (Hin : In newline (list_ascii_of_string cosmos_address_nl)) by (vm_compute; auto 50).
  rewrite Heq, list_ascii_of_string_app in Hin.
  apply in_app_or in Hin as [Hin|Hin]; [vm_compute in Hin; intuition discriminate|exact Hin].
Qed.

(** C9 (code_bug).  A string returned by [get_contract_address] always
    passes [is_valid_crypto_address] with the default prefix (otherwise the
    assertion raises), but that check lets through a valid address followed
    by a newline: on a confirmation log whose [contract_address] value ends
    with a newline, [get_contract_address] returns that value, which is not a
    lowercase-letter prefix followed by exactly 39 characters of [[0-9a-z]]. *)
Theorem get_contract_address_trailing_newline :
  (forall (json_loads : string -> string + json) (response : GetTxResponse)
          (w w' : world) (v : string),
      get_contract_address json_loads response w = (Ok v, w') ->
      is_valid_crypto_address v default_prefix = Some true /\ w' = w)
  /\
  (forall json_loads : string -> string + json,
      json_loads instantiate_raw_log_nl = inr instantiate_log_nl ->
      get_contract_address json_loads instantiate_response_nl world0
        = (Ok fetch_address_nl, world0)
      /\ ~ default_address_form fetch_address_nl).
Proof.
  split.
  - intros json_loads response w w' v.
    unfold get_contract_address.
    destruct (json_loads (raw_log (tx_response response))) as [msg|j];
      [unfold raise; discriminate|].
    destruct (_find_item j CONTRACT_ADDRESS_RE) as [d|]; [|unfold raise; discriminate].
    destruct (dict_get d "value") as [x|]; [|unfold raise; discriminate].
    destruct (is_valid_crypto_address (py_str x) default_prefix) as [[|]|] eqn:Hv;
      unfold ret, raise; try discriminate.
    intro H; inversion H; subst; auto.
  - intros json_loads Hl. split.
    + unfold get_contract_address. simpl (raw_log _). rewrite Hl.
      vm_compute. reflexivity.
    + intros (p & s & Heq & _ & Hp & _ & Hs).
      assert (Hin : In newline (list_ascii_of_string fetch_address_nl))
        by (vm_compute; auto 50).
      rewrite Heq, list_ascii_of_string_app in Hin.
      apply in_app_or in Hin as [Hin|Hin].
      * rewrite forallb_forall in Hp. specialize (Hp _ Hin). discriminate.
      * exact (newline_not_lower_alnum s Hs Hin).
Qed.

Lemma get_contract_address_trailing_newline_witness :
  get_contract_address (fun _ => inr instantiate_log_nl) instantiate_response_nl world0
    = (Ok fetch_address_nl, world0)
  /\ ~ default_address_form fetch_address_nl.
Proof.
  exact (proj2 get_contract_address_trailing_newline (fun _ => inr instantiate_log_nl)
           eq_refl).
Defined.

(** ** The contract workflows *)

Lemma bind_Ok {A B} (m : M A) (f : A -> M B) (w w1 : world) (a : A) :
  m w = (Ok a, w1) -> bind m f w = f a w1.
Proof. intro H. unfold bind. rewrite H. reflexivity. Qed.

(** C3 (counterexample).  With a budget of two attempts, an instantiation
    whose confirmation log parses but holds no contract address is not
    retried: [instantiate_contract] raises the extractor's [AssertionError]
    after a single broadcast, and without sleeping. *)
Lemma instantiate_contract_unmatched_log_not_retried :
  let run := instantiate_contract (demo_ledger 2) (demo_node 0 0 "{}") demo_loads demo_crypto
               1 JNull "demo" DEFAULT_GAS_LIMIT world0 in
  fst run = Err AssertionError
  /\ count_broadcasts (log (snd run)) = 1%nat
  /\ count_sleeps (log (snd run)) = 0%nat.
Proof. vm_compute. repeat split. Qed.

(** C3 (amended).  In [instantiate_contract]'s loop, a confirmation log that
    fails to parse is retried: the [JSONDecodeError] is remembered with the
    response, the failed-retry interval slept and the next attempt made.  A
    log that parses but where the extractor finds no contract address raises
    [AssertionError] out of the loop at once, with no sleep and no further
    attempt.  When the budget runs out, [instantiate_contract] raises a
    [BroadcastException] whose message names the last exception and the last
    raw log, with no chained cause.  In [deploy_contract] both conditions are
    fatal: the [JSONDecodeError] and the extractor's [AssertionError]
    propagate at once. *)
Theorem instantiate_contract_malformed_log (self : CosmosLedger) (node : Node)
    (json_loads : string -> string + json) (crypto : CosmosCrypto) (code_id_ : Z)
    (init_msg : json) (label_ contract_filename : string) (gas : Z) :
  (forall k res last w r w1 msg,
      instantiate_submit self node crypto code_id_ init_msg label_ gas w = (Ok r, w1) ->
      json_loads (raw_log (tx_response r)) = inl msg ->
      instantiate_loop self node json_loads crypto code_id_ init_msg label_ gas (S k) res last w
      = (sleep (msg_failed_retry_interval self) ;;;
         instantiate_loop self node json_loads crypto code_id_ init_msg label_ gas k (Some r)
           (Some (Exn "JSONDecodeError" msg None))) w1)
  /\
  (forall k res last w r w1 j,
      instantiate_submit self node crypto code_id_ init_msg label_ gas w = (Ok r, w1) ->
      json_loads (raw_log (tx_response r)) = inr j ->
      _find_item j CONTRACT_ADDRESS_RE = None ->
      instantiate_loop self node json_loads crypto code_id_ init_msg label_ gas (S k) res last w
      = (Err AssertionError, w1))
  /\
  (forall w res last w1,
      instantiate_loop self node json_loads crypto code_id_ init_msg label_ gas
        (Z.to_nat (n_total_msg_retries self)) None None w = (Ok (None, res, last), w1) ->
      instantiate_contract self node json_loads crypto code_id_ init_msg label_ gas w
      = (Err (Exn "BroadcastException"
                 ("Failed to init contract after multiple attempts: " ++ str_opt_exn last
                  ++ " " ++ match res with Some r => raw_log (tx_response r)
                            | None => EmptyString end) None), w1))
  /\
  (forall k res last w r w1 msg,
      deploy_submit self node crypto contract_filename gas w = (Ok r, w1) ->
      json_loads (raw_log (tx_response r)) = inl msg ->
      deploy_loop self node json_loads crypto contract_filename gas (S k) res last w
      = (Err (Exn "JSONDecodeError" msg None), w1))
  /\
  (forall k res last w r w1 j,
      deploy_submit self node crypto contract_filename gas w = (Ok r, w1) ->
      json_loads (raw_log (tx_response r)) = inr j ->
      _find_item j CODE_ID_RE = None ->
      deploy_loop self node json_loads crypto contract_filename gas (S k) res last w
      = (Err AssertionError, w1)).
Proof.
  repeat split.
  - intros k res last w r w1 msg Hs Hl. cbn [instantiate_loop]. rewrite Hs.
    unfold get_contract_address. rewrite Hl. reflexivity.
  - intros k res last w r w1 j Hs Hl Hf. cbn [instantiate_loop]. rewrite Hs.
    unfold get_contract_address. rewrite Hl, Hf. reflexivity.
  - intros w res last w1 H. unfold instantiate_contract. rewrite (bind_Ok _ _ _ _ _ H).
    reflexivity.
  - intros k res last w r w1 msg Hs Hl. cbn [deploy_loop]. rewrite Hs.
    unfold get_code_id. rewrite Hl. reflexivity.
  - intros k res last w r w1 j Hs Hl Hf. cbn [deploy_loop]. rewrite Hs.
    unfold get_code_id. rewrite Hl, Hf. reflexivity.
Qed.

Lemma instantiate_contract_malformed_log_witness :
  let submitted := instantiate_submit (demo_ledger 2) (demo_node 0 0 "{}") demo_crypto
                     1 JNull "demo" DEFAULT_GAS_LIMIT world0 in
  submitted = (Ok (demo_confirmation 0 "{}"), snd submitted)
  /\ demo_loads "{}" = inr (JDict [])
  /\ _find_item (JDict []) CONTRACT_ADDRESS_RE = None
  /\ instantiate_loop (demo_ledger 2) (demo_node 0 0 "{}") demo_loads demo_crypto
       1 JNull "demo" DEFAULT_GAS_LIMIT 2 None None world0
     = (Err AssertionError, snd submitted).
Proof.
  intro submitted.
  assert (E : submitted = (Ok (demo_confirmation 0 "{}"), snd submitted))
    by (vm_compute; reflexivity).
  split; [exact E|]. split; [reflexivity|]. split; [vm_compute; reflexivity|].
  destruct (instantiate_contract_malformed_log (demo_ledger 2) (demo_node 0 0 "{}") demo_loads
              demo_crypto 1 JNull "demo" "contract.wasm" DEFAULT_GAS_LIMIT)
    as (_ & Hb & _).
  apply (Hb 1%nat None None world0 (demo_confirmation 0 "{}") (snd submitted) (JDict [])).
  - exact E.
  - reflexivity.
  - vm_compute. reflexivity.
Defined.



(** ** The faucet loop *)

(** C2 (counterexample).  With the default budget of one attempt, an
    address whose balance stays empty gets one faucet request, one sleep of
    the faucet interval, and is then left below the 500000000 threshold:
    [refill_wealth_from_faucet] returns without the balance ever reaching
    it (no ["Balance of %s is %s"] line). *)
Lemma refill_wealth_from_faucet_gives_up :
  let run := refill_wealth_from_faucet (default_ledger "testnet" (Some "http://127.0.0.1:8000"))
               (demo_node 0 0 EmptyString) [demo_address] None world0 in
  min_amount_required None = 500000000%Z
  /\ fst run = Ok tt
  /\ log (snd run) = [EvSleep 20; EvCall (SFaucetClaim demo_address);
                      EvCall (SAllBalances demo_address)]
  /\ existsb (is_info_balance_for demo_address) (log (snd run)) = false.
Proof. vm_compute. repeat split. Qed.

Section FaucetProofs.
Variable self : CosmosLedger.
Variable node : Node.

Lemma count_faucet_claims_cons (ev : event) (l : list event) :
  count_faucet_claims (ev :: l)
  = ((if is_faucet_claim ev then 1 else 0) + count_faucet_claims l)%nat.
Proof. unfold count_faucet_claims. simpl. destruct (is_faucet_claim ev); reflexivity. Qed.

Lemma balances_loop_no_claims (address : string) (k : nat) (res : option (list Coin))
    (le : option exn) (w : world) :
  count_faucet_claims (log (snd (balances_loop self node address k res le w)))
  = count_faucet_claims (log w).
Proof.
  revert res le w. induction k as [|k IH]; intros res le w; [reflexivity|].
  cbn [balances_loop]. unfold invoke.
  destruct (bank_AllBalances node (clock w) address) as [e|[b|]].
  - unfold bind, sleep, emit. simpl. rewrite IH. simpl.
    rewrite !count_faucet_claims_cons. reflexivity.
  - simpl. rewrite count_faucet_claims_cons. reflexivity.
  - rewrite IH. simpl. rewrite count_faucet_claims_cons. reflexivity.
Qed.

Lemma get_balances_no_claims (address : string) (w : world) :
  count_faucet_claims (log (snd (get_balances self node address w)))
  = count_faucet_claims (log w).
Proof.
  unfold get_balances, bind.
  pose proof (balances_loop_no_claims address (Z.to_nat (n_total_msg_retries self)) None None w)
    as H.
  destruct (balances_loop self node address (Z.to_nat (n_total_msg_retries self)) None None w)
    as [[[[b|] le]|e] w1]; exact H.
Qed.

(** One guarded iteration never raises and sends at most one faucet request. *)
Lemma refill_iteration_total (address : string) (min_amount : Z) (w : world) :
  exists again w',
    try_except (refill_attempt self node address min_amount) any_exception
      (fun _ => sleep (faucet_retry_interval self) ;;; ret true) w = (Ok again, w')
    /\ (count_faucet_claims (log w') <= S (count_faucet_claims (log w)))%nat.
Proof.
  pose proof (get_balances_no_claims address w) as Hb.
  unfold try_except, refill_attempt.
  unfold bind at 1.
  destruct (get_balances self node address w) as [[bs|e] w1]; simpl in Hb.
  - destruct (Z.ltb _ min_amount).
    + unfold bind at 1, invoke.
      destruct (faucet_claims node (clock w1) address) as [e|[st|]];
        unfold bind, sleep, emit, raise, ret; simpl;
        (eexists; eexists; split; [reflexivity|]);
        simpl; rewrite ?count_faucet_claims_cons; simpl; lia.
    + unfold bind, emit, ret. simpl. do 2 eexists. split; [reflexivity|].
      simpl. rewrite count_faucet_claims_cons. simpl. lia.
  - unfold bind, sleep, emit, ret. simpl. do 2 eexists. split; [reflexivity|].
    simpl. rewrite count_faucet_claims_cons. simpl. lia.
Qed.

Lemma refill_loop_total (address : string) (min_amount : Z) (k : nat) (w : world) :
  exists w', refill_loop self node address min_amount k w = (Ok tt, w')
             /\ (count_faucet_claims (log w') <= count_faucet_claims (log w) + k)%nat.
Proof.
  revert w. induction k as [|k IH]; intro w.
  - exists w. split; [reflexivity|lia].
  - destruct (refill_iteration_total address min_amount w) as (again & w1 & E & Hc).
    cbn [refill_loop]. rewrite (bind_Ok _ _ _ _ _ E). destruct again.
    + destruct (IH w1) as (w2 & E2 & H2). exists w2. split; [exact E2|lia].
    + exists w1. split; [reflexivity|lia].
Qed.

Lemma refill_addresses_total (addresses : list string) (min_amount : Z) (w : world) :
  exists w', refill_addresses self node addresses min_amount w = (Ok tt, w')
             /\ (count_faucet_claims (log w')
                 <= count_faucet_claims (log w)
                    + length addresses * Z.to_nat (n_total_msg_retries self))%nat.
Proof.
  revert w. induction addresses as [|a rest IH]; intro w.
  - exists w. split; [reflexivity|simpl; lia].
  - destruct (refill_loop_total a min_amount (Z.to_nat (n_total_msg_retries self)) w)
      as (w1 & E1 & H1).
    destruct (IH w1) as (w2 & E2 & H2).
    exists w2. cbn [refill_addresses]. rewrite (bind_Ok _ _ _ _ _ E1). split; [exact E2|].
    simpl. lia.
Qed.

Lemma get_balances_first_answer (address : string) (bs : list Coin) (w : world) :
  (1 <= Z.to_nat (n_total_msg_retries self))%nat ->
  bank_AllBalances node (clock w) address = Returned (Some bs) ->
  get_balances self node address w
  = (Ok bs, mkWorld (S (clock w)) (EvCall (SAllBalances address) :: log w) (acct_num w)).
Proof.
  intros Hk Hb. unfold get_balances, bind.
  destruct (Z.to_nat (n_total_msg_retries self)) as [|k]; [lia|].
  cbn [balances_loop]. unfold invoke at 1. rewrite Hb. reflexivity.
Qed.

Lemma refill_loop_attempt (address : string) (m : Z) (k : nat) (w w1 : world) (b : bool) :
  refill_attempt self node address m w = (Ok b, w1) ->
  refill_loop self node address m (S k) w
  = if b then refill_loop self node address m k w1 else (Ok tt, w1).
Proof.
  intro H. cbn [refill_loop].
  assert (E : try_except (refill_attempt self node address m) any_exception
                (fun _ => sleep (faucet_retry_interval self) ;;; ret true) w = (Ok b, w1))
    by (unfold try_except; rewrite H; reflexivity).
  rewrite (bind_Ok _ _ _ _ _ E). destruct b; reflexivity.
Qed.

Lemma refill_loop_step_enough (address : string) (m : Z) (k : nat) (w w1 : world)
    (bs : list Coin) :
  get_balances self node address w = (Ok bs, w1) ->
  (m <= first_balance bs)%Z ->
  refill_loop self node address m (S k) w
  = (Ok tt, mkWorld (clock w1) (EvInfoBalance address (first_balance bs) :: log w1)
              (acct_num w1)).
Proof.
  intros Hg Hge. apply (refill_loop_attempt address m k w _ false).
  unfold refill_attempt. rewrite (bind_Ok _ _ _ _ _ Hg). cbv zeta.
  change (match bs with c :: _ => amount c | [] => 0%Z end) with (first_balance bs).
  replace (Z.ltb (first_balance bs) m) with false by (symmetry; apply Z.ltb_ge; exact Hge).
  reflexivity.
Qed.

Lemma refill_loop_step_below (address : string) (m : Z) (k : nat) (w w1 : world)
    (bs : list Coin) (st : Z) :
  get_balances self node address w = (Ok bs, w1) ->
  (first_balance bs < m)%Z ->
  faucet_claims node (clock w1) address = Returned (Some st) ->
  refill_loop self node address m (S k) w
  = refill_loop self node address m k
      (mkWorld (S (clock w1))
         (EvSleep (faucet_retry_interval self) :: EvCall (SFaucetClaim address) :: log w1)
         (acct_num w1)).
Proof.
  intros Hg Hlt Hf. apply (refill_loop_attempt address m k w _ true).
  unfold refill_attempt. rewrite (bind_Ok _ _ _ _ _ Hg). cbv zeta.
  change (match bs with c :: _ => amount c | [] => 0%Z end) with (first_balance bs).
  replace (Z.ltb (first_balance bs) m) with true by (symmetry; apply Z.ltb_lt; exact Hlt).
  unfold bind, invoke. rewrite Hf. reflexivity.
Qed.

Lemma refill_loop_low (address : string) (m : Z) (k : nat) (w : world) :
  (1 <= Z.to_nat (n_total_msg_retries self))%nat ->
  (forall i, exists bs, bank_AllBalances node i address = Returned (Some bs)
                        /\ (first_balance bs < m)%Z) ->
  (forall i, exists st, faucet_claims node i address = Returned (Some st)) ->
  exists w', refill_loop self node address m k w = (Ok tt, w')
    /\ count_faucet_claims (log w') = (count_faucet_claims (log w) + k)%nat
    /\ count_info_balances (log w') = count_info_balances (log w).
Proof.
  intros Hk Hb Hf. revert w. induction k as [|k IH]; intro w.
  - exists w. split; [reflexivity|]. split; [lia|reflexivity].
  - destruct (Hb (clock w)) as (bs & Hbs & Hlt).
    pose proof (get_balances_first_answer address bs w Hk Hbs) as Hg.
    destruct (Hf (S (clock w))) as (st & Hst).
    rewrite (refill_loop_step_below address m k w _ bs st Hg Hlt Hst).
    match goal with |- exists _, refill_loop _ _ _ _ _ ?w2 = _ /\ _ => destruct (IH w2) as (w' & E & Hc & Hi) end.
    exists w'. split; [exact E|].
    unfold count_faucet_claims, count_info_balances in *. simpl in Hc, Hi. split; lia.
Qed.

Lemma refill_addresses_low (addresses : list string) (m : Z) (w : world) :
  (1 <= Z.to_nat (n_total_msg_retries self))%nat ->
  (forall a, In a addresses -> forall i, exists bs,
       bank_AllBalances node i a = Returned (Some bs) /\ (first_balance bs < m)%Z) ->
  (forall a, In a addresses -> forall i, exists st, faucet_claims node i a = Returned (Some st)) ->
  exists w', refill_addresses self node addresses m w = (Ok tt, w')
    /\ count_faucet_claims (log w')
       = (count_faucet_claims (log w)
          + length addresses * Z.to_nat (n_total_msg_retries self))%nat
    /\ count_info_balances (log w') = count_info_balances (log w).
Proof.
  intro Hk. revert w. induction addresses as [|a rest IH]; intros w Hb Hf.
  - exists w. split; [reflexivity|]. simpl. split; [lia|reflexivity].
  - destruct (refill_loop_low a m (Z.to_nat (n_total_msg_retries self)) w Hk
                (Hb a (or_introl eq_refl)) (Hf a (or_introl eq_refl))) as (w1 & E1 & H1 & I1).
    destruct (IH w1) as (w2 & E2 & H2 & I2);
      [intros b Hin; apply Hb; right; exact Hin|intros b Hin; apply Hf; right; exact Hin|].
    exists w2. cbn [refill_addresses]. rewrite (bind_Ok _ _ _ _ _ E1).
    split; [exact E2|]. simpl. split; lia.
Qed.

End FaucetProofs.

(** C2 (amended).  In [refill_wealth_from_faucet], with [K =
    n_total_msg_retries] and [m] the threshold:
    - it never raises and sends at most [len(addresses) * K] faucet requests;
    - it runs the per-address loop, capped at [K] iterations, on the first
      address and then goes on to the rest, however that loop ended;
    - that loop never raises and sends at most [K] faucet requests;
    - an iteration reads the balance; when it is at least [m] it logs
      ["Balance of %s is %s"] and stops for that address;
    - when the balance is below [m] it sends a faucet request, sleeps the
      faucet retry interval and goes on to the next iteration;
    - when [K >= 1] and every balance read stays below [m] and every faucet
      request is answered, the run ends normally after exactly
      [len(addresses) * K] faucet requests without any ["Balance of %s is
      %s"] line: each address is left with its balance below [m]. *)
Theorem refill_wealth_from_faucet_bounded (self : CosmosLedger) (node : Node)
    (addresses : list string) (amount_ : option Z) (w : world) :
  let K := Z.to_nat (n_total_msg_retries self) in
  let m := min_amount_required amount_ in
  (exists w',
    refill_wealth_from_faucet self node addresses amount_ w = (Ok tt, w')
    /\ (count_faucet_claims (log w')
        <= count_faucet_claims (log w) + length addresses * K)%nat)
  /\
  (forall a rest w0,
      refill_wealth_from_faucet self node (a :: rest) amount_ w0
      = (refill_loop self node a m K ;;; refill_wealth_from_faucet self node rest amount_) w0)
  /\
  (forall a w0, exists w1, refill_loop self node a m K w0 = (Ok tt, w1)
                          /\ (count_faucet_claims (log w1) <= count_faucet_claims (log w0) + K)%nat)
  /\
  (forall a k w0 w1 bs,
      get_balances self node a w0 = (Ok bs, w1) ->
      (m <= first_balance bs)%Z ->
      refill_loop self node a m (S k) w0
      = (Ok tt, mkWorld (clock w1) (EvInfoBalance a (first_balance bs) :: log w1)
                  (acct_num w1)))
  /\
  (forall a k w0 w1 bs st,
      get_balances self node a w0 = (Ok bs, w1) ->
      (first_balance bs < m)%Z ->
      faucet_claims node (clock w1) a = Returned (Some st) ->
      refill_loop self node a m (S k) w0
      = refill_loop self node a m k
          (mkWorld (S (clock w1))
             (EvSleep (faucet_retry_interval self) :: EvCall (SFaucetClaim a) :: log w1)
             (acct_num w1)))
  /\
  ((1 <= K)%nat ->
   (forall a, In a addresses -> forall i, exists bs,
        bank_AllBalances node i a = Returned (Some bs) /\ (first_balance bs < m)%Z) ->
   (forall a, In a addresses -> forall i, exists st,
        faucet_claims node i a = Returned (Some st)) ->
   exists w',
     refill_wealth_from_faucet self node addresses amount_ w = (Ok tt, w')
     /\ count_faucet_claims (log w') = (count_faucet_claims (log w) + length addresses * K)%nat
     /\ count_info_balances (log w') = count_info_balances (log w)).
Proof.
  intros K m. split; [|split; [|split; [|split; [|split]]]].
  - unfold refill_wealth_from_faucet. apply refill_addresses_total.
  - intros a rest w0. reflexivity.
  - intros a w0. destruct (refill_loop_total self node a m K w0) as (w1 & E & H).
    exists w1. split; [exact E|lia].
  - intros a k w0 w1 bs Hg Hge. apply refill_loop_step_enough; assumption.
  - intros a k w0 w1 bs st Hg Hlt Hf. apply (refill_loop_step_below self node a m k w0 w1 bs st);
      assumption.
  - intros Hk Hb Hf. unfold refill_wealth_from_faucet. apply refill_addresses_low; assumption.
Qed.

Lemma refill_wealth_from_faucet_bounded_witness :
  refill_loop (demo_ledger 1) funded_node demo_address (min_amount_required None) 1 world0
  = (Ok tt, mkWorld 1 [EvInfoBalance demo_address 600000000;
                       EvCall (SAllBalances demo_address)] (acct_num world0))
  /\ refill_loop (demo_ledger 1) (demo_node 0 0 EmptyString) demo_address
       (min_amount_required None) 1 world0
     = refill_loop (demo_ledger 1) (demo_node 0 0 EmptyString) demo_address
         (min_amount_required None) 0
         (mkWorld 2 [EvSleep (faucet_retry_interval (demo_ledger 1));
                     EvCall (SFaucetClaim demo_address);
                     EvCall (SAllBalances demo_address)] (acct_num world0))
  /\ exists w',
       refill_wealth_from_faucet (demo_ledger 1) (demo_node 0 0 EmptyString)
         [demo_address; demo_address] None world0 = (Ok tt, w')
       /\ count_faucet_claims (log w') = 2%nat
       /\ count_info_balances (log w') = 0%nat.
Proof.
  split; [|split].
  - apply (proj1 (proj2 (proj2 (proj2 (refill_wealth_from_faucet_bounded
             (demo_ledger 1) funded_node [] None world0))))
             demo_address 0%nat world0
             (mkWorld 1 [EvCall (SAllBalances demo_address)] (acct_num world0))
             [mkCoin "atestfet" 600000000]);
      vm_compute; [reflexivity|discriminate].
  - apply (proj1 (proj2 (proj2 (proj2 (proj2 (refill_wealth_from_faucet_bounded
             (demo_ledger 1) (demo_node 0 0 EmptyString) [] None world0)))))
             demo_address 0%nat world0
             (mkWorld 1 [EvCall (SAllBalances demo_address)] (acct_num world0))
             [] 200%Z);
      vm_compute; reflexivity.
  - apply (proj2 (proj2 (proj2 (proj2 (proj2 (refill_wealth_from_faucet_bounded
             (demo_ledger 1) (demo_node 0 0 EmptyString) [demo_address; demo_address]
             None world0)))))).
    + vm_compute. lia.
    + intros a _ i. exists []. split; [reflexivity|vm_compute; reflexivity].
    + intros a _ i. exists 200%Z. reflexivity.
Defined.

(** ** Sample runs of the theorems' hypotheses *)

Lemma broadcast_tx_nonzero_ack_rejected_witness :
  call_with_retry (broadcast_retrier_of (demo_ledger 1) 1)
    (invoke SBroadcastTx (fun t => tx_BroadcastTx (demo_node 32 0 EmptyString) t demo_tx)) world0
  = (Ok (mkBroadcastTxResponse (mkTxResponse 32 "account sequence mismatch" "A1B2")),
     mkWorld 1 [EvCall SBroadcastTx] (acct_num world0))
  /\ broadcast_tx (demo_ledger 1) (demo_node 32 0 EmptyString) demo_tx None world0
     = (Err (Exn "BroadcastException"
               ("Transaction cannot be broadcast: " ++ "account sequence mismatch") None),
        mkWorld 1 [EvCall SBroadcastTx] (acct_num world0)).
Proof.
  assert (Hb : call_with_retry (broadcast_retrier_of (demo_ledger 1) 1)
                 (invoke SBroadcastTx (fun t => tx_BroadcastTx (demo_node 32 0 EmptyString) t demo_tx))
                 world0
               = (Ok (mkBroadcastTxResponse (mkTxResponse 32 "account sequence mismatch" "A1B2")),
                  mkWorld 1 [EvCall SBroadcastTx] (acct_num world0))) by reflexivity.
  split; [exact Hb|].
  pose proof (broadcast_tx_nonzero_ack_rejected (demo_ledger 1) (demo_node 32 0 EmptyString)
                demo_tx None world0) as H.
  cbv zeta in H. destruct H as [H _].
  destruct (H _ _ Hb) as [Hr _].
  - discriminate.
  - exact Hr.
Defined.


Lemma _find_item_first_match_witness :
  Forall (fun s => re_match CONTRACT_ADDRESS_RE s = false) (strings_of code_id_log)
  /\ _find_item code_id_log CONTRACT_ADDRESS_RE = None.
Proof.
  assert (H : Forall (fun s => re_match CONTRACT_ADDRESS_RE s = false) (strings_of code_id_log))
    by (vm_compute; repeat constructor).
  split; [exact H|].
  destruct _find_item_first_match as (_ & Hn & _).
  exact (Hn code_id_log CONTRACT_ADDRESS_RE H).
Defined.

Lemma sign_tx_account_number_known_witness :
  _ensure_accont_number (demo_ledger 1) (demo_node 0 0 EmptyString) demo_crypto world0
  = (Ok tt, mkWorld 1 [EvCall (SAccount demo_address)]
              (fun j => if Nat.eqb j (cr_id demo_crypto) then Some 7%Z else acct_num world0 j))
  /\ exists n, acct_num (mkWorld 1 [EvCall (SAccount demo_address)]
                 (fun j => if Nat.eqb j (cr_id demo_crypto) then Some 7%Z else acct_num world0 j))
                 (cr_id demo_crypto) = Some n.
Proof.
  assert (E : _ensure_accont_number (demo_ledger 1) (demo_node 0 0 EmptyString) demo_crypto world0
              = (Ok tt, mkWorld 1 [EvCall (SAccount demo_address)]
                          (fun j => if Nat.eqb j (cr_id demo_crypto) then Some 7%Z
                                    else acct_num world0 j))) by reflexivity.
  split; [exact E|].
  destruct (sign_tx_account_number_known (demo_ledger 1) (demo_node 0 0 EmptyString) demo_crypto
              demo_tx world0) as [H _].
  exact (H _ E).
Defined.

(** * Further properties of the ledger *)

(** ** The address check with the default prefix *)

Lemma m_star_cons (a : atom) (ps : regex) (st : bool) (c : ascii) (s : string) :
  matches_at (PAtom a QStar :: ps) st (String c s)
  = (matches_at ps st (String c s) || (atom_ok a c && matches_at (PAtom a QStar :: ps) false s))%bool.
Proof. reflexivity. Qed.

Lemma m_star_nil (a : atom) (ps : regex) (st : bool) :
  matches_at (PAtom a QStar :: ps) st EmptyString = (matches_at ps st EmptyString || false)%bool.
Proof. reflexivity. Qed.

Lemma m_plus_cons (a : atom) (ps : regex) (st : bool) (c : ascii) (s : string) :
  matches_at (PAtom a QPlus :: ps) st (String c s)
  = (atom_ok a c && matches_at (PAtom a QStar :: ps) false s)%bool.
Proof. reflexivity. Qed.

Lemma m_plus_nil (a : atom) (ps : regex) (st : bool) :
  matches_at (PAtom a QPlus :: ps) st EmptyString = false.
Proof. reflexivity. Qed.

Lemma m_rep_0 (a : atom) (ps : regex) (st : bool) (s : string) :
  matches_at (PAtom a (QRep 0) :: ps) st s = matches_at ps st s.
Proof. reflexivity. Qed.

Lemma m_rep_S_cons (a : atom) (ps : regex) (n : nat) (st : bool) (c : ascii) (s : string) :
  matches_at (PAtom a (QRep (S n)) :: ps) st (String c s)
  = (atom_ok a c && matches_at (PAtom a (QRep n) :: ps) false s)%bool.
Proof. reflexivity. Qed.

Lemma m_rep_S_nil (a : atom) (ps : regex) (n : nat) (st : bool) :
  matches_at (PAtom a (QRep (S n)) :: ps) st EmptyString = false.
Proof. reflexivity. Qed.

Lemma m_eol (st : bool) (s : string) : matches_at [PEol] st s = at_eol s.
Proof. simpl. apply andb_true_r. Qed.

Lemma at_eol_iff (e : string) : at_eol e = true <-> e = EmptyString \/ e = String newline EmptyString.
Proof.
  split.
  - destruct e as [|c [|c' e]]; simpl; intro H; auto; try discriminate.
    apply Ascii.eqb_eq in H. subst. auto.
  - intros [-> | ->]; simpl; auto.
Qed.

Lemma rep_eol_iff (a : atom) (n : nat) (st : bool) (t : string) :
  matches_at [PAtom a (QRep n); PEol] st t = true <->
  exists u e, t = (u ++ e)%string /\ String.length u = n
              /\ forallb (atom_ok a) (list_ascii_of_string u) = true /\ at_eol e = true.
Proof.
  revert st t. induction n as [|n IH]; intros st t.
  - rewrite m_rep_0, m_eol. split.
    + intro H. exists EmptyString, t. auto.
    + intros (u & e & -> & Hl & _ & He). destruct u; [exact He|discriminate].
  - destruct t as [|c t].
    + rewrite m_rep_S_nil. split; [discriminate|].
      intros (u & e & Hu & Hl & _). destruct u; [discriminate|discriminate].
    + rewrite m_rep_S_cons. split.
      * intro H. apply andb_true_iff in H as [Hc H]. apply IH in H as (u & e & -> & Hl & Hu & He).
        exists (String c u), e. simpl. rewrite Hc, Hu. auto.
      * intros (u & e & Hu & Hl & Ha & He). destruct u as [|c' u]; [discriminate|].
        simpl in Hu, Hl, Ha. injection Hu as -> ->. apply andb_true_iff in Ha as [Hc Ha].
        rewrite Hc. simpl. apply IH. exists u, e. auto.
Qed.

Lemma star_rep_eol_iff (a b : atom) (n : nat) (st : bool) (t : string) :
  matches_at [PAtom a QStar; PAtom b (QRep n); PEol] st t = true <->
  exists p u e, t = (p ++ u ++ e)%string
                /\ forallb (atom_ok a) (list_ascii_of_string p) = true
                /\ String.length u = n
                /\ forallb (atom_ok b) (list_ascii_of_string u) = true /\ at_eol e = true.
Proof.
  revert st. induction t as [|c t IH]; intro st.
  - rewrite m_star_nil, orb_false_r, rep_eol_iff. split.
    + intros (u & e & Hu & R). exists EmptyString, u, e. auto.
    + intros (p & u & e & Ht & _ & R). destruct p; [|discriminate]. exists u, e. auto.
  - rewrite m_star_cons. split.
    + intro H. apply orb_true_iff in H as [H|H].
      * apply rep_eol_iff in H as (u & e & Hu & R). exists EmptyString, u, e. auto.
      * apply andb_true_iff in H as [Hc H]. apply IH in H as (p & u & e & -> & Hp & R).
        exists (String c p), u, e. simpl. rewrite Hc, Hp. auto.
    + intros (p & u & e & Ht & Hp & R). destruct p as [|c' p].
      * apply orb_true_iff. left. apply rep_eol_iff. exists u, e. auto.
      * simpl in Ht, Hp. injection Ht as -> Ht. apply andb_true_iff in Hp as [Hc Hp].
        apply orb_true_iff. right. rewrite Hc. simpl. apply IH. exists p, u, e. auto.
Qed.



Lemma is_valid_default_compiled (address : string) :
  is_valid_crypto_address address default_prefix = Some (matches_at default_addr_re true address).
Proof.
  unfold is_valid_crypto_address.
  replace (re_compile ("^" ++ default_prefix ++ "[0-9a-z]{39}$")) with (Some default_addr_re)
    by (vm_compute; reflexivity).
  reflexivity.
Qed.

Lemma forallb_ext_ascii (f g : ascii -> bool) (l : list ascii) :
  (forall c, f c = g c) -> forallb f l = forallb g l.
Proof. intro H. induction l; simpl; auto. rewrite H, IHl. reflexivity. Qed.

Lemma atom_lower (c : ascii) : atom_ok (AClass [("a", "z")%char]) c = is_lower c.
Proof. unfold atom_ok, is_lower. simpl. apply orb_false_r. Qed.

Lemma atom_lower_alnum (c : ascii) :
  atom_ok (AClass [("0", "9")%char; ("a", "z")%char]) c = is_lower_alnum c.
Proof. unfold atom_ok, is_lower_alnum. simpl. rewrite orb_false_r. reflexivity. Qed.

Lemma some_true_inv (b : bool) : Some b = Some true -> b = true.
Proof. intro H. inversion H. reflexivity. Qed.

Lemma is_valid_default_check_form (address : string) :
  is_valid_crypto_address address default_prefix = Some true <-> default_check_form address.
Proof.
  rewrite is_valid_default_compiled. unfold default_addr_re.
  change (matches_at (PBol :: ?ps) true address) with (true && matches_at ps true address)%bool.
  rewrite andb_true_l.
  split.
  - intro H. apply some_true_inv in H. destruct address as [|c s]; [vm_compute in H; discriminate|].
    rewrite m_plus_cons in H. apply andb_true_iff in H as [Hc H].
    apply star_rep_eol_iff in H as (p & u & e & -> & Hp & Hu & Ha & He).
    exists (String c p), u, e. simpl. repeat split.
    + discriminate.
    + rewrite atom_lower in Hc. rewrite Hc. simpl.
      rewrite <- (forallb_ext_ascii (atom_ok (AClass [("a", "z")%char])) is_lower) by apply atom_lower. exact Hp.
    + exact Hu.
    + rewrite <- (forallb_ext_ascii (atom_ok (AClass [("0", "9")%char; ("a", "z")%char])) is_lower_alnum) by apply atom_lower_alnum. exact Ha.
    + apply at_eol_iff. exact He.
  - intros (p & u & e & -> & Hne & Hp & Hu & Ha & He). f_equal.
    destruct p as [|c p]; [contradiction|]. cbn [String.append]. rewrite m_plus_cons.
    simpl in Hp. apply andb_true_iff in Hp as [Hc Hp].
    rewrite atom_lower, Hc, andb_true_l. apply star_rep_eol_iff. exists p, u, e. repeat split.
    + rewrite (forallb_ext_ascii (atom_ok (AClass [("a", "z")%char])) is_lower) by apply atom_lower. exact Hp.
    + exact Hu.
    + rewrite (forallb_ext_ascii (atom_ok (AClass [("0", "9")%char; ("a", "z")%char])) is_lower_alnum) by apply atom_lower_alnum.
      exact Ha.
    + apply at_eol_iff. exact He.
Qed.

(** X1.  With the default prefix, [is_valid_crypto_address] accepts exactly
    the strings made of a nonempty run of lowercase letters, then 39
    characters of [[0-9a-z]], then nothing or a single newline. *)
Theorem is_valid_crypto_address_default_iff (address : string) :
  is_valid_crypto_address address default_prefix = Some true <-> default_check_form address.
Proof. apply is_valid_default_check_form. Qed.

(** ** [int(str(n))] *)

Lemma digit_lt10_cases (d : N) : (d < 10)%N ->
  d = 0%N \/ d = 1%N \/ d = 2%N \/ d = 3%N \/ d = 4%N \/ d = 5%N \/ d = 6%N \/ d = 7%N
  \/ d = 8%N \/ d = 9%N.
Proof. intro H. lia. Qed.

Lemma digit_char_props (d : N) : (d < 10)%N ->
  digit_value (digit_char d) = Some (N.to_nat d)
  /\ Ascii.eqb (digit_char d) "_" = false
  /\ is_py_space (digit_char d) = false.
Proof.
  intro H. apply digit_lt10_cases in H.
  repeat destruct H as [H|H]; subst; repeat split; reflexivity.
Qed.

Lemma read_digits_digit (c : ascii) (s : string) (a : Z) (p : bool) (d : nat) :
  digit_value c = Some d -> Ascii.eqb c "_" = false ->
  read_digits (String c s) a p = read_digits s (10 * a + Z.of_nat d)%Z true.
Proof. intros Hv Hu. cbn [read_digits]. rewrite Hu, Hv. reflexivity. Qed.

Lemma read_decimal_digits (fuel : nat) (n : N) (acc : string) (a : Z) (p : bool) :
  (1 <= fuel)%nat -> (n < 10 ^ N.of_nat fuel)%N ->
  exists k : nat, read_digits (decimal_digits fuel n acc) a p
                  = read_digits acc (a * 10 ^ Z.of_nat k + Z.of_N n)%Z true.
Proof.
  revert n acc a p. induction fuel as [|f IH]; intros n acc a p Hf Hn; [lia|].
  destruct (digit_char_props (N.modulo n 10) ltac:(apply N.mod_lt; lia)) as (Hv & Hu & _).
  cbn [decimal_digits]. destruct (N.ltb n 10) eqn:E.
  - apply N.ltb_lt in E. exists 1%nat. rewrite (read_digits_digit _ _ _ _ _ Hv Hu). f_equal.
    rewrite N.mod_small by exact E. rewrite N_nat_Z. lia.
  - apply N.ltb_ge in E.
    assert (Hf' : (1 <= f)%nat).
    { destruct f; [|lia]. simpl in Hn. lia. }
    assert (Hn' : (n / 10 < 10 ^ N.of_nat f)%N).
    { apply N.Div0.div_lt_upper_bound.
      assert (Hs : N.of_nat (S f) = N.succ (N.of_nat f)) by lia.
      rewrite Hs, N.pow_succ_r' in Hn. lia. }
    destruct (IH (n / 10)%N (String (digit_char (n mod 10)) acc) a p Hf' Hn') as (k & Hk).
    exists (S k). rewrite Hk, (read_digits_digit _ _ _ _ _ Hv Hu). f_equal.
    rewrite N_nat_Z.
    pose proof (N.div_mod n 10 ltac:(lia)) as Hdm.
    rewrite Nat2Z.inj_succ, Z.pow_succ_r by lia.
    assert (Z.of_N n = 10 * Z.of_N (n / 10) + Z.of_N (n mod 10))%Z as Hz by lia.
    rewrite Hz. ring.
Qed.

Lemma decimal_digits_head (fuel : nat) (n : N) (acc : string) :
  decimal_digits fuel n acc = acc
  \/ exists d rest, (d < 10)%N /\ decimal_digits fuel n acc = String (digit_char d) rest.
Proof.
  revert n acc. induction fuel as [|f IH]; intros n acc; [left; reflexivity|].
  right. cbn [decimal_digits]. destruct (N.ltb n 10).
  - exists (n mod 10)%N, acc. split; [apply N.mod_lt; lia|reflexivity].
  - destruct (IH (n / 10)%N (String (digit_char (n mod 10)) acc)) as [-> | H]; [|exact H].
    exists (n mod 10)%N, acc. split; [apply N.mod_lt; lia|reflexivity].
Qed.

Lemma decimal_digits_no_space (fuel : nat) (n : N) (acc : string) :
  forallb (fun c => negb (is_py_space c)) (list_ascii_of_string acc) = true ->
  forallb (fun c => negb (is_py_space c)) (list_ascii_of_string (decimal_digits fuel n acc))
  = true.
Proof.
  revert n acc. induction fuel as [|f IH]; intros n acc H; [exact H|].
  destruct (digit_char_props (N.modulo n 10) ltac:(apply N.mod_lt; lia)) as (_ & _ & Hs).
  assert (H' : forallb (fun c => negb (is_py_space c))
                 (list_ascii_of_string (String (digit_char (n mod 10)) acc)) = true).
  { simpl. rewrite Hs, H. reflexivity. }
  cbn [decimal_digits]. destruct (N.ltb n 10); [exact H'|]. apply IH. exact H'.
Qed.

Lemma lstrip_no_space (s : string) :
  forallb (fun c => negb (is_py_space c)) (list_ascii_of_string s) = true -> lstrip s = s.
Proof.
  destruct s as [|c s]; [reflexivity|]. simpl. intro H.
  apply andb_true_iff in H as [H _]. destruct (is_py_space c); [discriminate|reflexivity].
Qed.

Lemma strip_no_space (s : string) :
  forallb (fun c => negb (is_py_space c)) (list_ascii_of_string s) = true -> strip s = s.
Proof.
  intro H. unfold strip. rewrite (lstrip_no_space s H).
  rewrite lstrip_no_space.
  - rewrite list_ascii_of_string_of_list_ascii, rev_involutive, string_of_list_ascii_of_string.
    reflexivity.
  - rewrite list_ascii_of_string_of_list_ascii. rewrite forallb_forall in *.
    intros c Hc. apply H. apply in_rev. exact Hc.
Qed.

Lemma digits_fuel_enough (m : N) :
  (m < 10 ^ N.of_nat (S (N.to_nat (N.size m))))%N.
Proof.
  assert (Hs : N.of_nat (S (N.to_nat (N.size m))) = N.succ (N.size m)) by lia.
  rewrite Hs.
  pose proof (N.size_gt m) as H.
  assert (H2 : (2 ^ N.size m <= 10 ^ N.size m)%N) by (apply N.pow_le_mono_l; lia).
  assert (H3 : (10 ^ N.size m < 10 ^ N.succ (N.size m))%N)
    by (apply N.pow_lt_mono_r; lia).
  lia.
Qed.

Lemma read_digits_of_Z (m : N) :
  read_digits (decimal_digits (S (N.to_nat (N.size m))) m EmptyString) 0 false = Some (Z.of_N m).
Proof.
  destruct (read_decimal_digits (S (N.to_nat (N.size m))) m EmptyString 0 false
              ltac:(lia) (digits_fuel_enough m)) as (k & ->).
  simpl. reflexivity.
Qed.

Lemma py_int_string_of_Z (z : Z) : py_int (JStr (string_of_Z z)) = Some z.
Proof.
  unfold py_int, string_of_Z.
  set (digits := decimal_digits (S (N.to_nat (N.size (Z.abs_N z)))) (Z.abs_N z) EmptyString).
  assert (Hs : forallb (fun c => negb (is_py_space c)) (list_ascii_of_string digits) = true)
    by (apply decimal_digits_no_space; reflexivity).
  assert (Hr : read_digits digits 0 false = Some (Z.of_N (Z.abs_N z))) by apply read_digits_of_Z.
  destruct (Z.ltb_spec z 0) as [Hz|Hz].
  - rewrite strip_no_space by (simpl; rewrite Hs; reflexivity).
    rewrite Hr. simpl. f_equal. rewrite N2Z.inj_abs_N. lia.
  - rewrite strip_no_space by exact Hs.
    destruct (decimal_digits_head (S (N.to_nat (N.size (Z.abs_N z)))) (Z.abs_N z) EmptyString)
      as [H | (d & rest & Hd & H)].
    + exfalso. simpl in H. destruct (N.ltb _ 10); [discriminate|].
      destruct (decimal_digits_head (N.to_nat (N.size (Z.abs_N z))) (Z.abs_N z / 10)
                  (String (digit_char (Z.abs_N z mod 10)) EmptyString)) as [H'|(d & r & _ & H')];
        rewrite H' in H; discriminate.
    + fold digits in H. rewrite H in Hr |- *.
      transitivity (read_digits (String (digit_char d) rest) 0 false).
      * apply digit_lt10_cases in Hd. repeat destruct Hd as [Hd|Hd]; subst d; reflexivity.
      * rewrite Hr. f_equal. rewrite N2Z.inj_abs_N. lia.
Qed.

(** ** The rest of the ledger *)

Lemma count_calls_app (l1 l2 : list event) :
  count_calls (l1 ++ l2) = (count_calls l1 + count_calls l2)%nat.
Proof. unfold count_calls. rewrite filter_app, length_app. reflexivity. Qed.

Lemma count_sleeps_app (l1 l2 : list event) :
  count_sleeps (l1 ++ l2) = (count_sleeps l1 + count_sleeps l2)%nat.
Proof. unfold count_sleeps. rewrite filter_app, length_app. reflexivity. Qed.

Lemma count_calls_cons (ev : event) (l : list event) :
  count_calls (ev :: l) = ((if is_call ev then 1 else 0) + count_calls l)%nat.
Proof. unfold count_calls. simpl. destruct (is_call ev); reflexivity. Qed.

Lemma count_sleeps_cons (ev : event) (l : list event) :
  count_sleeps (ev :: l) = ((if is_sleep ev then 1 else 0) + count_sleeps l)%nat.
Proof. unfold count_sleeps. simpl. destruct (is_sleep ev); reflexivity. Qed.

Lemma count_calls_nil : count_calls [] = 0%nat.
Proof. reflexivity. Qed.

Lemma count_sleeps_nil : count_sleeps [] = 0%nat.
Proof. reflexivity. Qed.

Ltac count_events :=
  repeat rewrite ?count_calls_app, ?count_sleeps_app, ?count_calls_cons, ?count_sleeps_cons,
    ?count_calls_nil, ?count_sleeps_nil; cbn [is_call is_sleep].

Lemma repeat_app_cons {A} (x : A) (k : nat) (l : list A) :
  repeat x k ++ x :: l = x :: repeat x k ++ l.
Proof. induction k as [|k IH]; simpl; [reflexivity|now rewrite IH]. Qed.

Lemma retry_loop_step {V} (r : Retrier) (s : service) (o : nat -> outcome V)
    (k : nat) (le : option exn) (resp : option V) (w : world) :
  retry_loop r (invoke s o) (S k) le resp w
  = match o (clock w) with
    | Raised e =>
        retry_loop r (invoke s o) k (Some e) resp
          (mkWorld (S (clock w)) (EvSleep (retry_interval r) :: EvCall s :: log w) (acct_num w))
    | Returned (Some v) =>
        (Ok (le, Some v), mkWorld (S (clock w)) (EvCall s :: log w) (acct_num w))
    | Returned None =>
        retry_loop r (invoke s o) k le None (mkWorld (S (clock w)) (EvCall s :: log w) (acct_num w))
    end.
Proof. cbn [retry_loop]. unfold invoke at 1. destruct (o (clock w)) as [e|[v|]]; reflexivity. Qed.

Lemma retry_loop_bounded {V} (r : Retrier) (s : service) (o : nat -> outcome V)
    (k : nat) (le : option exn) (resp : option V) (w : world) :
  let w' := snd (retry_loop r (invoke s o) k le resp w) in
  exists d, log w' = d ++ log w /\ (count_calls d <= k)%nat
            /\ (count_sleeps d <= count_calls d)%nat
            /\ clock w' = (clock w + count_calls d)%nat /\ acct_num w' = acct_num w.
Proof.
  revert le resp w. induction k as [|k IH]; intros le resp w; cbv zeta.
  - exists []. unfold ret, count_calls, count_sleeps. simpl. repeat split; lia.
  - rewrite retry_loop_step. destruct (o (clock w)) as [e|[v|]].
    + destruct (IH (Some e) resp
                  (mkWorld (S (clock w)) (EvSleep (retry_interval r) :: EvCall s :: log w)
                     (acct_num w))) as (d & Hl & Hc & Hs & Hk & Ha).
      cbn [clock log acct_num] in *.
      exists (d ++ [EvSleep (retry_interval r); EvCall s]).
            rewrite Hl, <- app_assoc. count_events. repeat split; try lia; auto.
    + exists [EvCall s]. cbn [snd log clock acct_num]. count_events.
      repeat split; lia.
    + destruct (IH le None (mkWorld (S (clock w)) (EvCall s :: log w) (acct_num w)))
        as (d & Hl & Hc & Hs & Hk & Ha).
      cbn [clock log acct_num] in *.
      exists (d ++ [EvCall s]).
      rewrite Hl, <- app_assoc. count_events. repeat split; try lia; auto.
Qed.

(** X4.  Whatever the operation answers, [Retrier.call_with_retry] performs
    at most [n_retries] calls (none when [n_retries <= 0]), sleeps at most
    once per call, only prepends to the log, advances the clock by the
    number of calls and leaves the cached account numbers unchanged. *)
Theorem call_with_retry_bounded {V} (r : Retrier) (s : service) (o : nat -> outcome V)
    (w : world) :
  let w' := snd (call_with_retry r (invoke s o) w) in
  exists d, log w' = d ++ log w /\ (count_calls d <= Z.to_nat (n_retries r))%nat
            /\ (count_sleeps d <= count_calls d)%nat
            /\ clock w' = (clock w + count_calls d)%nat /\ acct_num w' = acct_num w.
Proof.
  cbv zeta. unfold call_with_retry, bind.
  pose proof (retry_loop_bounded r s o (Z.to_nat (n_retries r)) None None w) as H.
  cbv zeta in H.
  destruct (retry_loop r (invoke s o) (Z.to_nat (n_retries r)) None None w)
    as [[[le [v|]]|e] w2]; exact H.
Qed.

(** X5.  With [n_retries <= 0], [Retrier.call_with_retry] never calls the
    operation: it raises [exception_type] with the message
    ["<call_name> failed after multiple attempts: None"] and no cause, and
    the world is unchanged. *)
Theorem call_with_retry_no_attempts {V} (r : Retrier) (call : M (option V)) (w : world) :
  (n_retries r <= 0)%Z ->
  call_with_retry r call w
  = (Err (Exn (exception_type r) (call_name r ++ " failed after multiple attempts: None")
            None), w).
Proof.
  intro H. unfold call_with_retry, bind. replace (Z.to_nat (n_retries r)) with 0%nat by lia. reflexivity.
Qed.

Lemma call_with_retry_no_attempts_witness :
  (n_retries (broadcast_retrier 0) <= 0)%Z
  /\ call_with_retry (broadcast_retrier 0) (invoke SBroadcastTx fails_twice) world0
     = (Err (Exn "BroadcastException"
               ("Transaction broadcasting" ++ " failed after multiple attempts: None") None),
        world0).
Proof.
  split; [simpl; lia|].
  apply (call_with_retry_no_attempts (broadcast_retrier 0)). simpl. lia.
Defined.

Lemma retry_loop_none_answers {V} (r : Retrier) (s : service) (o : nat -> outcome V)
    (k : nat) (le : option exn) (w : world) :
  (forall i, o i = Returned None) ->
  retry_loop r (invoke s o) k le None w
  = (Ok (le, None),
     mkWorld (clock w + k) (repeat (EvCall s) k ++ log w) (acct_num w)).
Proof.
  intro Ho. revert w. induction k as [|k IH]; intro w.
  - simpl. rewrite Nat.add_0_r. destruct w; reflexivity.
  - rewrite retry_loop_step, Ho, IH. cbn [clock log acct_num].
    rewrite repeat_app_cons. f_equal. f_equal. lia.
Qed.

(** X6.  When the operation always returns [None], [Retrier.call_with_retry]
    calls it [n_retries] times without sleeping, then raises
    [exception_type] with the message ["... failed after multiple attempts:
    None"] and no cause. *)
Theorem call_with_retry_none_answers {V} (r : Retrier) (s : service) (o : nat -> outcome V)
    (w : world) :
  (forall i, o i = Returned None) ->
  call_with_retry r (invoke s o) w
  = (Err (Exn (exception_type r) (call_name r ++ " failed after multiple attempts: None")
            None),
     mkWorld (clock w + Z.to_nat (n_retries r))
       (repeat (EvCall s) (Z.to_nat (n_retries r)) ++ log w) (acct_num w)).
Proof.
  intro Ho. unfold call_with_retry, bind. rewrite (retry_loop_none_answers r s o _ None w Ho).
  reflexivity.
Qed.

Lemma call_with_retry_none_answers_witness :
  (forall i : nat, (fun _ : nat => Returned (V := Z) None) i = Returned None)
  /\ call_with_retry (broadcast_retrier 2) (invoke SBroadcastTx (fun _ => Returned (V := Z) None))
       world0
     = (Err (Exn "BroadcastException"
               ("Transaction broadcasting" ++ " failed after multiple attempts: None") None),
        mkWorld 2 [EvCall SBroadcastTx; EvCall SBroadcastTx] (fun _ => None)).
Proof.
  split; [reflexivity|].
  apply (call_with_retry_none_answers (broadcast_retrier 2) SBroadcastTx
           (fun _ => Returned (V := Z) None) world0).
  reflexivity.
Defined.



(** X7.  When the first account query answers an account that is not a
    [BaseAccount], [query_account_data] raises [TypeError("Unexpected account
    type")] after that single call, without sleeping or retrying, whatever
    the retry budget. *)
Theorem query_account_data_other_account_type (self : CosmosLedger) (node : Node)
    (address type_url : string) (w : world) :
  (1 <= Z.to_nat (n_total_msg_retries self))%nat ->
  auth_Account node (clock w) address
  = Returned (Some (mkQueryAccountResponse (AnyOtherAccount type_url))) ->
  query_account_data self node address w
  = (Err (Exn "TypeError" "Unexpected account type" None),
     mkWorld (S (clock w)) (EvCall (SAccount address) :: log w) (acct_num w)).
Proof.
  intros Hn Ha. unfold query_account_data.
  destruct (Z.to_nat (n_total_msg_retries self)) as [|k]; [lia|].
  unfold bind. cbn [account_loop]. unfold invoke at 1. rewrite Ha. reflexivity.
Qed.

Lemma query_account_data_other_account_type_witness :
  (1 <= Z.to_nat (n_total_msg_retries (demo_ledger 3)))%nat
  /\ query_account_data (demo_ledger 3) vesting_node demo_address world0
     = (Err (Exn "TypeError" "Unexpected account type" None),
        mkWorld 1 [EvCall (SAccount demo_address)] (fun _ => None)).
Proof.
  split; [simpl; lia|].
  apply (query_account_data_other_account_type (demo_ledger 3) vesting_node demo_address
           "/cosmos.vesting.v1beta1.ContinuousVestingAccount" world0).
  - simpl. lia.
  - reflexivity.
Defined.

Lemma mapM_length {A B} (f : A -> M B) (l : list A) (w w' : world) (ys : list B) :
  mapM f l w = (Ok ys, w') -> length ys = length l.
Proof.
  revert w ys. induction l as [|x l IH]; intros w ys H.
  - inversion H; reflexivity.
  - cbn [mapM] in H. unfold bind in H.
    destruct (f x w) as [[y|e] w1]; [|discriminate].
    destruct (mapM f l w1) as [[ys'|e] w2] eqn:E; [|discriminate].
    unfold ret in H. inversion H; subst. simpl. f_equal. exact (IH _ _ E).
Qed.

Lemma generate_tx_shape (self : CosmosLedger) (node : Node) (msgs : list ProtoAny)
    (addrs pks : list string) (fee_opt : option (list Coin)) (memo_ : string) (gas : Z)
    (w w' : world) (tx : Tx) :
  generate_tx self node msgs addrs pks fee_opt memo_ gas w = (Ok tx, w') ->
  body tx = mkTxBody msgs memo_
  /\ fee (auth_info tx) = mkFee (match fee_opt with Some f => f | None => [] end) gas
  /\ length (signer_infos (auth_info tx)) = Nat.min (length addrs) (length pks)
  /\ signatures tx = [].
Proof.
  unfold generate_tx, bind.
  destruct (mapM _ (combine addrs pks) w) as [[sis|e] w1] eqn:E; [|discriminate].
  unfold ret. intro H. inversion H; subst. simpl. repeat split.
  rewrite (mapM_length _ _ _ _ _ E), length_combine. reflexivity.
Qed.

(** X8.  [generate_tx] pairs senders and public keys with [zip]: the
    transaction it builds has [min(len(from_addresses), len(pub_keys))]
    signer infos, so senders without a key (or keys without a sender) are
    dropped silently. *)
Theorem generate_tx_zip_truncates (self : CosmosLedger) (node : Node) (msgs : list ProtoAny)
    (addrs pks : list string) (fee_opt : option (list Coin)) (memo_ : string) (gas : Z)
    (w w' : world) (tx : Tx) :
  generate_tx self node msgs addrs pks fee_opt memo_ gas w = (Ok tx, w') ->
  length (signer_infos (auth_info tx)) = Nat.min (length addrs) (length pks).
Proof. intro H. apply (generate_tx_shape _ _ _ _ _ _ _ _ _ _ _ H). Qed.

Lemma generate_tx_zip_truncates_witness :
  let run := generate_tx (demo_ledger 1) (demo_node 0 0 EmptyString) []
               [demo_address; "fetch1other"] ["pubkey"] None EmptyString DEFAULT_GAS_LIMIT
               world0 in
  exists tx, run = (Ok tx, snd run) /\ length (signer_infos (auth_info tx)) = 1%nat.
Proof.
  intro run.
  exists (mkTx (mkTxBody [] EmptyString)
            (mkAuthInfo [mkSignerInfo (PackedPubKey "pubkey") (mkModeInfo SIGN_MODE_DIRECT) 3]
               (mkFee [] DEFAULT_GAS_LIMIT)) []).
  assert (E : run = (Ok (mkTx (mkTxBody [] EmptyString)
                             (mkAuthInfo [mkSignerInfo (PackedPubKey "pubkey")
                                            (mkModeInfo SIGN_MODE_DIRECT) 3]
                                (mkFee [] DEFAULT_GAS_LIMIT)) []), snd run))
    by (vm_compute; reflexivity).
  split; [exact E|].
  exact (generate_tx_zip_truncates (demo_ledger 1) (demo_node 0 0 EmptyString) []
           [demo_address; "fetch1other"] ["pubkey"] None EmptyString DEFAULT_GAS_LIMIT
           world0 (snd run) _ E).
Defined.

Lemma sign_tx_ok (self : CosmosLedger) (node : Node) (c : CosmosCrypto) (tx tx' : Tx)
    (w w' : world) :
  sign_tx self node c tx w = (Ok tx', w') ->
  exists n, acct_num w' (cr_id c) = Some n
            /\ tx' = sign_transaction tx (cr_private_key c) (chain_id self) n.
Proof.
  unfold sign_tx, _ensure_accont_number, bind, get_acct_num, set_acct_num, ret, raise.
  intro H. destruct (acct_num w (cr_id c)) as [n|] eqn:E; cbv beta iota zeta in H.
  - repeat (rewrite E in H; cbv beta iota zeta in H). inversion H; subst. eauto.
  - destruct (query_account_data self node (cr_address c) w) as [[acc|e] w1];
      [|discriminate].
    cbn [acct_num] in H. rewrite Nat.eqb_refl in H. inversion H; subst.
    exists (ba_account_number acc). cbn [acct_num]. rewrite Nat.eqb_refl. auto.
Qed.

Lemma sign_tx_known (self : CosmosLedger) (node : Node) (c : CosmosCrypto) (tx : Tx)
    (w : world) (n : Z) :
  acct_num w (cr_id c) = Some n ->
  sign_tx self node c tx w = (Ok (sign_transaction tx (cr_private_key c) (chain_id self) n), w).
Proof.
  intro H. unfold sign_tx, _ensure_accont_number, bind, get_acct_num, ret.
  repeat (rewrite H; cbv beta iota zeta). reflexivity.
Qed.

(** X9.  After a successful [sign_tx], the account number it signed with is
    cached: signing any other transaction with the same crypto makes no node
    call, leaves the world unchanged and uses that same account number. *)
Theorem sign_tx_caches_account_number (self : CosmosLedger) (node : Node) (c : CosmosCrypto)
    (tx tx' : Tx) (w w' : world) :
  sign_tx self node c tx w = (Ok tx', w') ->
  exists n, tx' = sign_transaction tx (cr_private_key c) (chain_id self) n
    /\ forall tx2, sign_tx self node c tx2 w'
                   = (Ok (sign_transaction tx2 (cr_private_key c) (chain_id self) n), w').
Proof.
  intro H. destruct (sign_tx_ok _ _ _ _ _ _ _ H) as (n & Hn & ->).
  exists n. split; [reflexivity|]. intro tx2. apply sign_tx_known. exact Hn.
Qed.

Lemma sign_tx_caches_account_number_witness :
  let run := sign_tx (demo_ledger 1) (demo_node 0 0 EmptyString) demo_crypto demo_tx world0 in
  run = (Ok (sign_transaction demo_tx "privkey" "testnet" 7), snd run)
  /\ exists n, sign_transaction demo_tx "privkey" "testnet" 7
               = sign_transaction demo_tx (cr_private_key demo_crypto)
                   (chain_id (demo_ledger 1)) n
      /\ forall tx2, sign_tx (demo_ledger 1) (demo_node 0 0 EmptyString) demo_crypto tx2
                       (snd run)
                     = (Ok (sign_transaction tx2 (cr_private_key demo_crypto)
                              (chain_id (demo_ledger 1)) n), snd run).
Proof.
  intro run.
  assert (E : run = (Ok (sign_transaction demo_tx "privkey" "testnet" 7), snd run))
    by (vm_compute; reflexivity).
  split; [exact E|].
  exact (sign_tx_caches_account_number (demo_ledger 1) (demo_node 0 0 EmptyString) demo_crypto
           demo_tx _ world0 (snd run) E).
Defined.

(** X10.  A successful [send_funds] is the result of broadcasting a
    transaction whose body is the single [MsgSend] from the crypto's address
    to the recipient with the given coins and an empty memo, whose fee has no
    coins and the default gas limit, with one signer info and exactly one
    signature, made with the crypto's cached account number. *)
Theorem send_funds_broadcasts_signed_transfer (self : CosmosLedger) (node : Node)
    (c : CosmosCrypto) (to_address : string) (coins : list Coin) (w w' : world)
    (res : GetTxResponse) :
  send_funds self node c to_address coins w = (Ok res, w') ->
  exists tx w1,
    broadcast_tx self node tx None w1 = (Ok res, w')
    /\ body tx = mkTxBody [PackedMsg (MsgSend (cr_address c) to_address coins)] EmptyString
    /\ fee (auth_info tx) = mkFee [] DEFAULT_GAS_LIMIT
    /\ length (signer_infos (auth_info tx)) = 1%nat
    /\ exists n, acct_num w1 (cr_id c) = Some n
       /\ signatures tx = [mkSignature (body tx) (auth_info tx) (cr_private_key c)
                             (chain_id self) n].
Proof.
  unfold send_funds, get_packed_send_msg, bind. cbv zeta.
  destruct (generate_tx self node _ _ _ None EmptyString DEFAULT_GAS_LIMIT w)
    as [[tx0|e] w0] eqn:Eg; [|discriminate].
  destruct (sign_tx self node c tx0 w0) as [[tx1|e] w1] eqn:Es; [|discriminate].
  intro H.
  apply generate_tx_shape in Eg as (Hb & Hf & Hl & Hs).
  apply sign_tx_ok in Es as (n & Hn & ->).
  exists (sign_transaction tx0 (cr_private_key c) (chain_id self) n), w1.
  split; [exact H|]. unfold sign_transaction. cbn [body auth_info signatures].
  rewrite Hs. split; [exact Hb|]. split; [exact Hf|].
  split; [exact Hl|]. exists n. split; [exact Hn|reflexivity].
Qed.

Lemma send_funds_broadcasts_signed_transfer_witness :
  let run := send_funds (demo_ledger 1) (demo_node 0 0 EmptyString) demo_crypto "fetch1dest"
               [mkCoin "atestfet" 10] world0 in
  run = (Ok (demo_confirmation 0 EmptyString), snd run)
  /\ exists tx w1,
       broadcast_tx (demo_ledger 1) (demo_node 0 0 EmptyString) tx None w1
       = (Ok (demo_confirmation 0 EmptyString), snd run)
       /\ body tx = mkTxBody [PackedMsg (MsgSend demo_address "fetch1dest"
                                          [mkCoin "atestfet" 10])] EmptyString
       /\ fee (auth_info tx) = mkFee [] DEFAULT_GAS_LIMIT
       /\ length (signer_infos (auth_info tx)) = 1%nat
       /\ exists n, acct_num w1 (cr_id demo_crypto) = Some n
          /\ signatures tx = [mkSignature (body tx) (auth_info tx) "privkey" "testnet" n].
Proof.
  intro run.
  assert (E : run = (Ok (demo_confirmation 0 EmptyString), snd run))
    by (vm_compute; reflexivity).
  split; [exact E|].
  exact (send_funds_broadcasts_signed_transfer (demo_ledger 1) (demo_node 0 0 EmptyString)
           demo_crypto "fetch1dest" [mkCoin "atestfet" 10] world0 (snd run) _ E).
Defined.

(** X2.  When the parsed log's first dict matching [CODE_ID_RE] holds under
    ["value"] the integer [n], or the string [str(n)], [get_code_id] returns
    [n] and leaves the world unchanged: [int(str(n)) = n] for every integer,
    negative ones included. *)
Theorem get_code_id_reads_value (json_loads : string -> string + json) (r : GetTxResponse)
    (w : world) (j d v : json) (n : Z) :
  json_loads (raw_log (tx_response r)) = inr j ->
  _find_item j CODE_ID_RE = Some d ->
  dict_get d "value" = Some v ->
  v = JInt n \/ v = JStr (string_of_Z n) ->
  get_code_id json_loads r w = (Ok n, w).
Proof.
  intros Hl Hf Hv Hn. unfold get_code_id. rewrite Hl, Hf, Hv.
  destruct Hn as [-> | ->]; [reflexivity|]. rewrite py_int_string_of_Z. reflexivity.
Qed.

Lemma get_code_id_reads_value_witness :
  demo_loads "{}" = inr (JDict [])
  /\ _find_item code_id_log CODE_ID_RE = Some (JDict [("key", JStr "code_id"); ("value", JStr "42")])
  /\ dict_get (JDict [("key", JStr "code_id"); ("value", JStr "42")]) "value" = Some (JStr "42")
  /\ JStr "42" = JStr (string_of_Z 42)
  /\ get_code_id (fun _ => inr code_id_log) (demo_confirmation 0 "LOG") world0 = (Ok 42%Z, world0).
Proof.
  split; [reflexivity|]. split; [vm_compute; reflexivity|]. split; [reflexivity|].
  split; [vm_compute; reflexivity|].
  apply (get_code_id_reads_value (fun _ => inr code_id_log) (demo_confirmation 0 "LOG") world0
           code_id_log (JDict [("key", JStr "code_id"); ("value", JStr "42")]) (JStr "42")).
  - reflexivity.
  - vm_compute. reflexivity.
  - reflexivity.
  - right. vm_compute. reflexivity.
Defined.

(** X3.  A string that [get_contract_address] returns is a nonempty run of
    lowercase letters, 39 characters of [[0-9a-z]] and at most one final
    newline; the extraction makes no call and leaves the world unchanged. *)
Theorem get_contract_address_default_form (json_loads : string -> string + json)
    (r : GetTxResponse) (w w' : world) (a : string) :
  get_contract_address json_loads r w = (Ok a, w') -> default_check_form a /\ w' = w.
Proof.
  unfold get_contract_address.
  destruct (json_loads (raw_log (tx_response r))) as [msg|j]; [unfold raise; discriminate|].
  destruct (_find_item j CONTRACT_ADDRESS_RE) as [d|]; [|unfold raise; discriminate].
  destruct (dict_get d "value") as [x|]; [|unfold raise; discriminate].
  destruct (is_valid_crypto_address (py_str x) default_prefix) as [[|]|] eqn:Hv;
    unfold ret, raise; try discriminate.
  intro H; inversion H; subst. split; [|reflexivity].
  apply is_valid_default_check_form. exact Hv.
Qed.

Lemma get_contract_address_default_form_witness :
  get_contract_address (fun _ => inr contract_address_log) (demo_confirmation 0 "LOG") world0
  = (Ok contract_address_value, world0)
  /\ default_check_form contract_address_value.
Proof.
  assert (E : get_contract_address (fun _ => inr contract_address_log) (demo_confirmation 0 "LOG")
                world0 = (Ok contract_address_value, world0)) by (vm_compute; reflexivity).
  split; [exact E|].
  exact (proj1 (get_contract_address_default_form _ _ _ _ _ E)).
Defined.

(** X11.  When the first attempt of [deploy_contract] broadcasts and the code
    id is read from its log, [deploy_contract] returns that code id with
    [MessageToDict] of the response, without sleeping or another attempt. *)
Theorem deploy_contract_first_attempt (self : CosmosLedger) (node : Node)
    (json_loads : string -> string + json) (crypto : CosmosCrypto) (contract_filename : string)
    (gas : Z) (w w1 w2 : world) (r : GetTxResponse) (c : Z) :
  (1 <= Z.to_nat (n_total_msg_retries self))%nat ->
  deploy_submit self node crypto contract_filename gas w = (Ok r, w1) ->
  get_code_id json_loads r w1 = (Ok c, w2) ->
  deploy_contract self node json_loads crypto contract_filename gas w
  = (Ok (c, message_to_dict r), w2).
Proof.
  intros Hn Hs Hc. unfold deploy_contract.
  destruct (Z.to_nat (n_total_msg_retries self)) as [|k]; [lia|].
  assert (Hl : deploy_loop self node json_loads crypto contract_filename gas (S k) None None w
               = (Ok (Some c, Some r, None), w2)).
  { cbn [deploy_loop]. rewrite Hs, Hc. reflexivity. }
  rewrite (bind_Ok _ _ _ _ _ Hl). reflexivity.
Qed.

Lemma deploy_contract_first_attempt_witness :
  let submitted := deploy_submit (demo_ledger 1) (demo_node 0 0 "LOG") demo_crypto
                     "contract.wasm" DEFAULT_GAS_LIMIT world0 in
  submitted = (Ok (demo_confirmation 0 "LOG"), snd submitted)
  /\ get_code_id (fun _ => inr code_id_log) (demo_confirmation 0 "LOG") (snd submitted)
     = (Ok 42%Z, snd submitted)
  /\ deploy_contract (demo_ledger 1) (demo_node 0 0 "LOG") (fun _ => inr code_id_log)
       demo_crypto "contract.wasm" DEFAULT_GAS_LIMIT world0
     = (Ok (42%Z, message_to_dict (demo_confirmation 0 "LOG")), snd submitted).
Proof.
  intro submitted.
  assert (E : submitted = (Ok (demo_confirmation 0 "LOG"), snd submitted))
    by (vm_compute; reflexivity).
  assert (C : get_code_id (fun _ => inr code_id_log) (demo_confirmation 0 "LOG") (snd submitted)
              = (Ok 42%Z, snd submitted)) by (vm_compute; reflexivity).
  split; [exact E|]. split; [exact C|].
  apply (deploy_contract_first_attempt (demo_ledger 1) (demo_node 0 0 "LOG")
           (fun _ => inr code_id_log) demo_crypto "contract.wasm" DEFAULT_GAS_LIMIT world0
           (snd submitted) (snd submitted) (demo_confirmation 0 "LOG") 42%Z).
  - vm_compute. lia.
  - exact E.
  - exact C.
Defined.

(** X12.  When the first attempt of [instantiate_contract] broadcasts and the
    contract address is read from its log, [instantiate_contract] returns
    that address with [MessageToDict] of the response, without sleeping or
    another attempt. *)
Theorem instantiate_contract_first_attempt (self : CosmosLedger) (node : Node)
    (json_loads : string -> string + json) (crypto : CosmosCrypto) (code_id_ : Z)
    (init_msg : json) (label_ : string) (gas : Z) (w w1 w2 : world) (r : GetTxResponse)
    (a : string) :
  (1 <= Z.to_nat (n_total_msg_retries self))%nat ->
  instantiate_submit self node crypto code_id_ init_msg label_ gas w = (Ok r, w1) ->
  get_contract_address json_loads r w1 = (Ok a, w2) ->
  instantiate_contract self node json_loads crypto code_id_ init_msg label_ gas w
  = (Ok (a, message_to_dict r), w2).
Proof.
  intros Hn Hs Ha. unfold instantiate_contract.
  destruct (Z.to_nat (n_total_msg_retries self)) as [|k]; [lia|].
  assert (Hl : instantiate_loop self node json_loads crypto code_id_ init_msg label_ gas (S k)
                 None None w = (Ok (Some a, Some r, None), w2)).
  { cbn [instantiate_loop]. rewrite Hs, Ha. reflexivity. }
  rewrite (bind_Ok _ _ _ _ _ Hl). reflexivity.
Qed.

Lemma instantiate_contract_first_attempt_witness :
  let submitted := instantiate_submit (demo_ledger 1) (demo_node 0 0 "LOG") demo_crypto
                     1 JNull "demo" DEFAULT_GAS_LIMIT world0 in
  submitted = (Ok (demo_confirmation 0 "LOG"), snd submitted)
  /\ get_contract_address (fun _ => inr contract_address_log) (demo_confirmation 0 "LOG")
       (snd submitted) = (Ok contract_address_value, snd submitted)
  /\ instantiate_contract (demo_ledger 1) (demo_node 0 0 "LOG") (fun _ => inr contract_address_log)
       demo_crypto 1 JNull "demo" DEFAULT_GAS_LIMIT world0
     = (Ok (contract_address_value, message_to_dict (demo_confirmation 0 "LOG")), snd submitted).
Proof.
  intro submitted.
  assert (E : submitted = (Ok (demo_confirmation 0 "LOG"), snd submitted))
    by (vm_compute; reflexivity).
  assert (C : get_contract_address (fun _ => inr contract_address_log)
                (demo_confirmation 0 "LOG") (snd submitted)
              = (Ok contract_address_value, snd submitted)) by (vm_compute; reflexivity).
  split; [exact E|]. split; [exact C|].
  apply (instantiate_contract_first_attempt (demo_ledger 1) (demo_node 0 0 "LOG")
           (fun _ => inr contract_address_log) demo_crypto 1 JNull "demo" DEFAULT_GAS_LIMIT world0
           (snd submitted) (snd submitted) (demo_confirmation 0 "LOG") contract_address_value).
  - vm_compute. lia.
  - exact E.
  - exact C.
Defined.

Section ExecuteFailures.
Variable self : CosmosLedger.
Variable node : Node.
Variable crypto : CosmosCrypto.
Variable contract_address : string.
Variable execute_msg : json.
Variable gas : Z.
Variable amount_ : option (list Coin).

Lemma execute_loop_broadcast_failures :
  (forall w, exists e w1, execute_submit self node crypto contract_address execute_msg gas amount_ w
                          = (Err e, w1) /\ is_cls "BroadcastException" e = true) ->
  forall k le w, (1 <= k)%nat ->
    exists e wl wl1,
      execute_submit self node crypto contract_address execute_msg gas amount_ wl = (Err e, wl1)
      /\ is_cls "BroadcastException" e = true
      /\ execute_loop self node crypto contract_address execute_msg gas amount_ k None le w
         = (Ok (None, Some e),
            mkWorld (clock wl1) (EvSleep (msg_failed_retry_interval self) :: log wl1)
              (acct_num wl1)).
Proof.
  intros Hall k. induction k as [|k IH]; intros le w Hk; [lia|].
  destruct (Hall w) as (e & w1 & Hs & He).
  cbn [execute_loop]. rewrite Hs, He. unfold bind at 1, sleep, emit.
  destruct k as [|k'].
  - exists e, w, w1. split; [exact Hs|]. split; [exact He|]. reflexivity.
  - apply IH. lia.
Qed.

End ExecuteFailures.

(** X13.  In [execute_contract], an exception other than
    [BroadcastException] raised by an attempt propagates at once, with no
    sleep and no retry.  When every attempt raises a [BroadcastException]
    and the budget is at least one, [execute_contract] raises a
    [BroadcastException] naming the exception [e] of the last attempt and
    chained to it as its cause: [e] is what an attempt from some state
    [wl] raised, ending in state [wl1], and the run ends in [wl1] with just
    the retry sleep that followed that attempt added, so no attempt came
    after it. *)
Theorem execute_contract_failures (self : CosmosLedger) (node : Node) (crypto : CosmosCrypto)
    (contract_address : string) (execute_msg : json) (gas : Z) (amount_ : option (list Coin))
    (n_retries_ : option Z) :
  let K := Z.to_nat (match n_retries_ with Some n => n | None => n_sending_retries self end) in
  (forall w e w1,
      (1 <= K)%nat ->
      execute_submit self node crypto contract_address execute_msg gas amount_ w = (Err e, w1) ->
      is_cls "BroadcastException" e = false ->
      execute_contract self node crypto contract_address execute_msg gas amount_ n_retries_ w
      = (Err e, w1))
  /\
  ((1 <= K)%nat ->
   (forall w, exists e w1,
       execute_submit self node crypto contract_address execute_msg gas amount_ w = (Err e, w1)
       /\ is_cls "BroadcastException" e = true) ->
   forall w, exists e wl wl1,
     execute_submit self node crypto contract_address execute_msg gas amount_ wl = (Err e, wl1)
     /\ is_cls "BroadcastException" e = true
     /\ execute_contract self node crypto contract_address execute_msg gas amount_ n_retries_ w
        = (Err (Exn "BroadcastException"
                  ("Failed to execute contract after multiple attempts: " ++ exn_msg e) (Some e)),
           mkWorld (clock wl1) (EvSleep (msg_failed_retry_interval self) :: log wl1)
             (acct_num wl1))).
Proof.
  intro K. split.
  - intros w e w1 Hk Hs He. unfold execute_contract. cbv zeta. fold K.
    destruct K as [|k]; [lia|]. unfold bind. cbn [execute_loop]. rewrite Hs, He. reflexivity.
  - intros Hk Hall w. unfold execute_contract. cbv zeta. fold K.
    destruct (execute_loop_broadcast_failures self node crypto contract_address execute_msg gas
                amount_ Hall K None w Hk) as (e & wl & wl1 & Hs & He & Hl).
    exists e, wl, wl1. split; [exact Hs|]. split; [exact He|].
    rewrite (bind_Ok _ _ _ _ _ Hl). reflexivity.
Qed.

Lemma execute_contract_failures_witness :
  let K := Z.to_nat (n_sending_retries (demo_ledger 1)) in
  let submitted := execute_submit (demo_ledger 1) vesting_node demo_crypto demo_address JNull
                     DEFAULT_GAS_LIMIT None world0 in
  (1 <= K)%nat
  /\ submitted = (Err (Exn "TypeError" "Unexpected account type" None), snd submitted)
  /\ execute_contract (demo_ledger 1) vesting_node demo_crypto demo_address JNull
       DEFAULT_GAS_LIMIT None None world0
     = (Err (Exn "TypeError" "Unexpected account type" None), snd submitted)
  /\ (forall w, exists e w1,
         execute_submit (demo_ledger 1) (demo_node 32 0 EmptyString) demo_crypto demo_address
           JNull DEFAULT_GAS_LIMIT None w = (Err e, w1)
         /\ is_cls "BroadcastException" e = true)
  /\ exists e wl wl1,
       execute_submit (demo_ledger 1) (demo_node 32 0 EmptyString) demo_crypto demo_address
         JNull DEFAULT_GAS_LIMIT None wl = (Err e, wl1)
       /\ is_cls "BroadcastException" e = true
       /\ execute_contract (demo_ledger 1) (demo_node 32 0 EmptyString) demo_crypto demo_address
            JNull DEFAULT_GAS_LIMIT None (Some 2%Z) world0
          = (Err (Exn "BroadcastException"
                    ("Failed to execute contract after multiple attempts: " ++ exn_msg e)
                    (Some e)),
             mkWorld (clock wl1) (EvSleep (msg_failed_retry_interval (demo_ledger 1)) :: log wl1)
               (acct_num wl1)).
Proof.
  intros K submitted.
  assert (HK : (1 <= K)%nat) by (vm_compute; lia).
  assert (E : submitted = (Err (Exn "TypeError" "Unexpected account type" None), snd submitted))
    by (vm_compute; reflexivity).
  assert (Hall : forall w, exists e w1,
             execute_submit (demo_ledger 1) (demo_node 32 0 EmptyString) demo_crypto demo_address
               JNull DEFAULT_GAS_LIMIT None w = (Err e, w1)
             /\ is_cls "BroadcastException" e = true).
  { intros [clk lg an]. vm_compute. destruct (an 0%nat) as [z|] eqn:Ha; vm_compute;
      rewrite ?Ha; vm_compute; eexists; eexists; split; reflexivity. }
  split; [exact HK|]. split; [exact E|]. split.
  - apply (proj1 (execute_contract_failures (demo_ledger 1) vesting_node demo_crypto demo_address
                    JNull DEFAULT_GAS_LIMIT None None) world0
             (Exn "TypeError" "Unexpected account type" None) (snd submitted) HK E).
    reflexivity.
  - split; [exact Hall|].
    apply (proj2 (execute_contract_failures (demo_ledger 1) (demo_node 32 0 EmptyString)
                    demo_crypto demo_address JNull DEFAULT_GAS_LIMIT None (Some 2%Z))).
    + vm_compute. lia.
    + exact Hall.
Defined.

Lemma contract_state_loop_raising (self : CosmosLedger)
    (wasm : nat -> string -> string -> outcome string) (address data : string)
    (errs : nat -> exn) (k : nat) (res : option string) (le : option exn) (w : world) :
  (forall i, wasm i address data = Raised (errs i)) ->
  contract_state_loop self wasm address data k res le w
  = (Ok (res, last_failure k le (fun i => errs (clock w + i)%nat)),
     mkWorld (clock w + k) (repeat (EvSleep (msg_failed_retry_interval self)) k ++ log w)
       (acct_num w)).
Proof.
  intro Hw. revert le w. induction k as [|k IH]; intros le w.
  - simpl. rewrite Nat.add_0_r. destruct w; reflexivity.
  - cbn [contract_state_loop]. unfold invoke_unlogged. rewrite Hw.
    unfold bind, sleep, emit. cbn [clock log acct_num]. rewrite IH. cbn [clock log acct_num].
    rewrite repeat_app_cons. f_equal; [|f_equal; lia].
    destruct k; simpl; do 3 f_equal; f_equal; lia.
Qed.

Lemma balance_loop_raising (self : CosmosLedger)
    (bank : nat -> string -> string -> outcome Coin) (address denom : string)
    (errs : nat -> exn) (k : nat) (res : option Coin) (le : option exn) (w : world) :
  (forall i, bank i address denom = Raised (errs i)) ->
  balance_loop self bank address denom k res le w
  = (Ok (res, last_failure k le (fun i => errs (clock w + i)%nat)),
     mkWorld (clock w + k) (repeat (EvSleep (msg_retry_interval self)) k ++ log w)
       (acct_num w)).
Proof.
  intro Hw. revert le w. induction k as [|k IH]; intros le w.
  - simpl. rewrite Nat.add_0_r. destruct w; reflexivity.
  - cbn [balance_loop]. unfold invoke_unlogged. rewrite Hw.
    unfold bind, sleep, emit. cbn [clock log acct_num]. rewrite IH. cbn [clock log acct_num].
    rewrite repeat_app_cons. f_equal; [|f_equal; lia].
    destruct k; simpl; do 3 f_equal; f_equal; lia.
Qed.

(** X14.  When every [SmartContractState] call raises, [query_contract_state]
    sleeps [msg_failed_retry_interval] after each of its [n] attempts and
    raises a [BroadcastException] naming the last exception, chained to it.
    When the first call answers data that [json.loads] rejects, the
    [JSONDecodeError] propagates at once, neither retried nor wrapped. *)
Theorem query_contract_state_failures (self : CosmosLedger)
    (wasm : nat -> string -> string -> outcome string) (json_dumps : json -> string)
    (json_loads : string -> string + json) (contract_address : string) (msg_ : json)
    (n_retries_ : option Z) :
  let K := Z.to_nat (match n_retries_ with Some n => n | None => n_total_msg_retries self end) in
  (forall w errs,
      (1 <= K)%nat ->
      (forall i, wasm i contract_address (json_dumps msg_) = Raised (errs i)) ->
      query_contract_state self wasm json_dumps json_loads contract_address msg_ n_retries_ w
      = (Err (Exn "BroadcastException"
                ("Getting contract state failed after multiple attempts: "
                   ++ exn_msg (errs (clock w + K - 1)%nat))
                (Some (errs (clock w + K - 1)%nat))),
         mkWorld (clock w + K) (repeat (EvSleep (msg_failed_retry_interval self)) K ++ log w)
           (acct_num w)))
  /\
  (forall w d m,
      (1 <= K)%nat ->
      wasm (clock w) contract_address (json_dumps msg_) = Returned (Some d) ->
      json_loads d = inl m ->
      query_contract_state self wasm json_dumps json_loads contract_address msg_ n_retries_ w
      = (Err (Exn "JSONDecodeError" m None), mkWorld (S (clock w)) (log w) (acct_num w))).
Proof.
  intro K. split.
  - intros w errs Hk Hw. unfold query_contract_state. cbv zeta. fold K. unfold bind.
    rewrite (contract_state_loop_raising self wasm _ _ errs K None None w Hw).
    destruct K as [|k]; [lia|]. replace (clock w + S k - 1)%nat with (clock w + k)%nat by lia.
    reflexivity.
  - intros w d m Hk Hw Hl. unfold query_contract_state. cbv zeta. fold K. unfold bind.
    destruct K as [|k]; [lia|]. cbn [contract_state_loop]. unfold invoke_unlogged.
    rewrite Hw. cbv beta iota. rewrite Hl. reflexivity.
Qed.

Lemma query_contract_state_failures_witness :
  let wasm_down := fun (_ : nat) (_ _ : string) => Raised (V := string) unavailable in
  let wasm_garbled := fun (_ : nat) (_ _ : string) => Returned (Some "garbled") in
  (forall i, wasm_down i demo_address "{}" = Raised ((fun _ => unavailable) i))
  /\ query_contract_state (demo_ledger 2) wasm_down (fun _ => "{}") demo_loads demo_address
       (JDict []) None world0
     = (Err (Exn "BroadcastException"
               ("Getting contract state failed after multiple attempts: " ++ "node unreachable")
               (Some unavailable)),
        mkWorld 2 [EvSleep 10; EvSleep 10] (fun _ => None))
  /\ demo_loads "garbled" = inl "Expecting value: line 1 column 1 (char 0)"
  /\ query_contract_state (demo_ledger 2) wasm_garbled (fun _ => "{}") demo_loads demo_address
       (JDict []) None world0
     = (Err (Exn "JSONDecodeError" "Expecting value: line 1 column 1 (char 0)" None),
        mkWorld 1 [] (fun _ => None)).
Proof.
  intros wasm_down wasm_garbled.
  split; [reflexivity|]. split.
  - apply (proj1 (query_contract_state_failures (demo_ledger 2) wasm_down (fun _ => "{}")
                    demo_loads demo_address (JDict []) None) world0 (fun _ => unavailable)).
    + vm_compute. lia.
    + reflexivity.
  - split; [reflexivity|].
    apply (proj2 (query_contract_state_failures (demo_ledger 2) wasm_garbled (fun _ => "{}")
                    demo_loads demo_address (JDict []) None) world0 "garbled").
    + vm_compute. lia.
    + reflexivity.
    + reflexivity.
Defined.

(** X15.  When every [Balance] call raises, [get_balance] sleeps
    [msg_retry_interval] after each of its [n_total_msg_retries] attempts and
    raises a [BroadcastException] naming the last exception, with no chained
    cause. *)
Theorem get_balance_failures (self : CosmosLedger)
    (bank : nat -> string -> string -> outcome Coin) (address denom : string)
    (errs : nat -> exn) (w : world) :
  let K := Z.to_nat (n_total_msg_retries self) in
  (1 <= K)%nat ->
  (forall i, bank i address denom = Raised (errs i)) ->
  get_balance self bank address denom w
  = (Err (Exn "BroadcastException"
            ("Getting balance failed after multiple attempts: "
               ++ exn_msg (errs (clock w + K - 1)%nat)) None),
     mkWorld (clock w + K) (repeat (EvSleep (msg_retry_interval self)) K ++ log w)
       (acct_num w)).
Proof.
  intros K Hk Hw. unfold get_balance. fold K. unfold bind.
  rewrite (balance_loop_raising self bank address denom errs K None None w Hw).
  destruct K as [|k]; [lia|]. replace (clock w + S k - 1)%nat with (clock w + k)%nat by lia.
  reflexivity.
Qed.

Lemma get_balance_failures_witness :
  (1 <= Z.to_nat (n_total_msg_retries (demo_ledger 2)))%nat
  /\ get_balance (demo_ledger 2) (fun _ _ _ => Raised unavailable) demo_address "atestfet" world0
     = (Err (Exn "BroadcastException"
               ("Getting balance failed after multiple attempts: " ++ "node unreachable") None),
        mkWorld 2 [EvSleep 2; EvSleep 2] (fun _ => None)).
Proof.
  split; [vm_compute; lia|].
  apply (get_balance_failures (demo_ledger 2) (fun _ _ _ => Raised unavailable) demo_address
           "atestfet" (fun _ => unavailable) world0).
  - vm_compute. lia.
  - reflexivity.
Defined.

(** X16.  With a faucet URL, [ensure_funds] refills from the faucet (even
    when a validator is set), never raises and sends at most
    [len(addresses) * n_total_msg_retries] faucet requests.  Without a
    faucet URL it raises [RuntimeError], leaving the world unchanged, when no
    validator is set or when a validator is set but no amounts are given. *)
Theorem ensure_funds_dispatch (self : CosmosLedger) (node : Node)
    (validator_crypto : option CosmosCrypto) (addresses : list string)
    (amount_coins : option (list Coin)) (w : world) :
  (forall u, faucet_url self = Some u ->
     exists w', ensure_funds self node validator_crypto addresses amount_coins w = (Ok tt, w')
       /\ (count_faucet_claims (log w')
           <= count_faucet_claims (log w)
              + length addresses * Z.to_nat (n_total_msg_retries self))%nat)
  /\
  (faucet_url self = None -> validator_crypto = None ->
     ensure_funds self node validator_crypto addresses amount_coins w
     = (Err (Exn "RuntimeError" "Faucet or validator was not specified, cannot refill addresses"
               None), w))
  /\
  (forall v, faucet_url self = None -> validator_crypto = Some v -> amount_coins = None ->
     ensure_funds self node validator_crypto addresses amount_coins w
     = (Err (Exn "RuntimeError" "Amounts are required for validator refill" None), w)).
Proof.
  unfold ensure_funds. split; [|split].
  - intros u Hu. rewrite Hu. unfold refill_wealth_from_faucet. apply refill_addresses_total.
  - intros Hu Hv. rewrite Hu, Hv. reflexivity.
  - intros v Hu Hv Ha. rewrite Hu, Hv, Ha. reflexivity.
Qed.

Lemma ensure_funds_dispatch_witness :
  faucet_url (demo_ledger 1) = Some "http://127.0.0.1:8000"
  /\ faucet_url (default_ledger "testnet" None) = None
  /\ (exists w', ensure_funds (demo_ledger 1) (demo_node 0 0 EmptyString) (Some demo_crypto)
                   [demo_address] None world0 = (Ok tt, w')
                 /\ (count_faucet_claims (log w') <= count_faucet_claims (log world0) + 1 * 1)%nat)
  /\ ensure_funds (default_ledger "testnet" None) (demo_node 0 0 EmptyString) None
       [demo_address] None world0
     = (Err (Exn "RuntimeError" "Faucet or validator was not specified, cannot refill addresses"
               None), world0)
  /\ ensure_funds (default_ledger "testnet" None) (demo_node 0 0 EmptyString) (Some demo_crypto)
       [demo_address] None world0
     = (Err (Exn "RuntimeError" "Amounts are required for validator refill" None), world0).
Proof.
  split; [reflexivity|]. split; [reflexivity|]. split; [|split].
  - exact (proj1 (ensure_funds_dispatch (demo_ledger 1) (demo_node 0 0 EmptyString)
                    (Some demo_crypto) [demo_address] None world0) _ eq_refl).
  - exact (proj1 (proj2 (ensure_funds_dispatch (default_ledger "testnet" None)
                           (demo_node 0 0 EmptyString) None [demo_address] None world0))
             eq_refl eq_refl).
  - exact (proj2 (proj2 (ensure_funds_dispatch (default_ledger "testnet" None)
                           (demo_node 0 0 EmptyString) (Some demo_crypto) [demo_address] None
                           world0)) demo_crypto eq_refl eq_refl eq_refl).
Defined.

(** X17.  [check_availability] raises exactly when the network check in
    its [try] block raises some [e0]; it then raises, in the same state, a
    [LedgerServerNotAvailable] whose message is ["ledger server is not
    available with address: "], the node address, [": "] and [str(e0)],
    and whose cause is that [e0].  It
    succeeds exactly when the node's answer reports the ledger's chain id:
    through REST, the [/node_info] body parses and its
    [["node_info"]["network"]] is that string; through RPC, the node info's
    network equals it. *)
Theorem check_availability_outcome (self : CosmosLedger) (json_loads : string -> string + json)
    (client : NodeClient) (node_address : string) (w : world) :
  (forall e w',
     check_availability self json_loads client node_address w = (Err e, w') <->
     exists e0, node_network_check self json_loads client w = (Err e0, w')
       /\ e = Exn "LedgerServerNotAvailable"
                ("ledger server is not available with address: " ++ node_address ++ ": "
                   ++ exn_msg e0) (Some e0))
  /\
  (fst (check_availability self json_loads client node_address w) = Ok tt <->
   match client with
   | RestNode rest_get =>
       exists s result node_info,
         rest_get (clock w) "/node_info" = Returned (Some s) /\ json_loads s = inr result
         /\ py_getitem result "node_info" = inr node_info
         /\ py_getitem node_info "network" = inr (JStr (chain_id self))
   | RpcNode get_node_info => get_node_info (clock w) = Returned (Some (chain_id self))
   end).
Proof.
  split.
  - intros e w'. unfold check_availability, try_except, any_exception.
    destruct (node_network_check self json_loads client w) as [[u|e0] w1]; split.
    + discriminate.
    + intros (e1 & H & _). discriminate.
    + cbn. intro H. inversion H; subst. exists e0. split; reflexivity.
    + intros (e1 & H & ->). inversion H; subst. reflexivity.
  - unfold check_availability, try_except, any_exception, node_network_check, bind,
      invoke_unlogged, raise_sum, ret, raise.
    destruct client as [g|g].
    + destruct (g (clock w) "/node_info") as [e|[s|]] eqn:Eg; cbn.
      * split; [discriminate|]. intros (s' & r' & ni' & H1 & _). congruence.
      * destruct (json_loads s) as [m|result] eqn:El; cbn.
        -- split; [discriminate|]. intros (s' & r' & ni' & H1 & H2 & _). congruence.
        -- destruct (py_getitem result "node_info") as [e|ni] eqn:E1; cbn.
           ++ split; [discriminate|]. intros (s' & r' & ni' & H1 & H2 & H3 & _). congruence.
           ++ destruct (py_getitem ni "network") as [e|nw] eqn:E2; cbn.
              ** split; [discriminate|].
                 intros (s' & r' & ni' & H1 & H2 & H3 & H4). congruence.
              ** destruct nw as [| | |n| |]; cbn;
                   try (split; [discriminate|];
                        intros (s' & r' & ni' & H1 & H2 & H3 & H4); congruence).
                 destruct (String.eqb_spec n (chain_id self)) as [Hn|Hn]; cbn.
                 --- split; [intros _; exists s, result, ni; subst; auto|reflexivity].
                 --- split; [discriminate|].
                     intros (s' & r' & ni' & H1 & H2 & H3 & H4). congruence.
      * split; [discriminate|]. intros (s' & r' & ni' & H1 & _). congruence.
    + destruct (g (clock w)) as [e|[n|]] eqn:Eg; cbn.
      * split; [discriminate|]. congruence.
      * destruct (String.eqb_spec n (chain_id self)) as [Hn|Hn]; cbn.
        -- subst. split; reflexivity.
        -- split; [discriminate|]. congruence.
      * split; [discriminate|]. congruence.
Qed.

Lemma check_availability_outcome_witness :
  let rest := RestNode (fun _ _ => Returned (Some "NODE_INFO")) in
  fst (check_availability (demo_ledger 1) (fun _ => inr node_info_testnet) rest "http://node" world0)
    = Ok tt
  /\ check_availability (default_ledger "mainnet" None) (fun _ => inr node_info_testnet) rest
       "http://node" world0
     = (Err (Exn "LedgerServerNotAvailable"
               ("ledger server is not available with address: " ++ "http://node" ++ ": "
                  ++ "Bad chain id") (Some (Exn "ValueError" "Bad chain id" None))),
        mkWorld 1 [] (fun _ => None))
  /\ node_network_check (default_ledger "mainnet" None) (fun _ => inr node_info_testnet) rest
       world0
     = (Err (Exn "ValueError" "Bad chain id" None), mkWorld 1 [] (fun _ => None)).
Proof.
  intro rest. split; [|split].
  - apply (proj2 (proj2 (check_availability_outcome (demo_ledger 1) (fun _ => inr node_info_testnet)
                          rest "http://node" world0))).
    exists "NODE_INFO", node_info_testnet, (JDict [("network", JStr "testnet");
                                                   ("version", JStr "0.34")]).
    repeat split.
  - apply (proj2 (proj1 (check_availability_outcome (default_ledger "mainnet" None)
                    (fun _ => inr node_info_testnet) rest "http://node" world0)
             _ (mkWorld 1 [] (fun _ => None)))).
    exists (Exn "ValueError" "Bad chain id" None). split; reflexivity.
  - reflexivity.
Defined.
